(** * analyze_results.py: issue filtering and verdict

    A shallow embedding of [src/analyze_results.py].  The script reads the
    report of the HL7 FHIR validator, drops the issues listed in a YAML file
    of known issues, prints what is left and ends with an exit status.

    Python values are modelled as follows.
    - [str] is [string]; [text.startswith(m)] is [String.prefix m text].
    - The dict [issue_levels] is a [gmap string Z].
    - The dict loaded from the YAML file maps a resource id (a string, or
      [None] for the YAML key [null]) to a dict that may hold the key
      ["ignored issues"]: a [gmap (option string) (option ignored_map)].
    - The dict under ["ignored issues"] is iterated by the script, so it is an
      association list in insertion order; its values are lists of rules.
    - A rule is a dict read through the keys ["message"], ["reason"] and
      ["processed"]; only the presence of ["processed"] is ever tested.
      Rules are distinct objects (no YAML anchors shared between lists).
    - [print], [sys.exit], [parser.error], reading a file and an uncaught
      exception are the effects; a run is the list of its events and the way
      it stopped. *)

From Stdlib Require Import ZArith String Ascii List Bool Lia.
From stdpp Require Import base option gmap strings list.

Local Open Scope string_scope.
Local Open Scope Z_scope.

(** ** Effects *)

Inductive exn : Type :=
| AttributeError                (* [None.attrib]: the element was not found *)
| KeyError (key : string)       (* a missing dict key or XML attribute *)
| IndexError                    (* a list index out of range *)
| Exception (msg : string)      (* [raise Exception(msg)] *)
| FileError (path : string).    (* [open], [ET.parse] or [yaml.safe_load] failed *)

Inductive event : Type :=
| Print (line : string)         (* [print(line)] on standard output *)
| Usage (msg : string)          (* [parser.error(msg)]: usage and message on stderr *)
| ReadFile (path : string).     (* [open(path)] or [ET.parse(path)] *)

Inductive status (A : Type) : Type :=
| Ok (a : A)
| SysExit (code : Z)
| Raised (e : exn).

Arguments Ok {A} a.
Arguments SysExit {A} code.
Arguments Raised {A} e.

Definition run (A : Type) : Type := (list event * status A)%type.

Definition ret {A} (a : A) : run A := ([], Ok a).

Definition bind {A B} (m : run A) (f : A -> run B) : run B :=
  match m with
  | (t, Ok a) => let (t', r) := f a in ((t ++ t')%list, r)
  | (t, SysExit c) => (t, SysExit c)
  | (t, Raised e) => (t, Raised e)
  end.

Notation "'let*' x ':=' m 'in' k" := (bind m (fun x => k))
  (at level 10, x binder, m at level 100, k at level 200).
Notation "'let*' ' pat ':=' m 'in' k" :=
  (bind m (fun x => match x with pat => k end))
  (at level 10, pat pattern, m at level 100, k at level 200).
Notation "m ;; k" := (bind m (fun _ => k))
  (at level 100, k at level 200, right associativity).

Definition print (line : string) : run unit := ([Print line], Ok tt).
Definition sys_exit {A} (code : Z) : run A := ([], SysExit code).
Definition raise {A} (e : exn) : run A := ([], Raised e).
Definition read_file (path : string) : run unit := ([ReadFile path], Ok tt).

(** [optparse.OptionParser.error]: prints the usage and [msg] on stderr and
    leaves the process with status 2. *)
Definition parser_error {A} (msg : string) : run A := ([Usage msg], SysExit 2).

(** [try: m except AttributeError: default]. *)
Definition except_AttributeError {A} (m : run A) (default : A) : run A :=
  match m with
  | (t, Raised AttributeError) => (t, Ok default)
  | _ => m
  end.

(** [for x in xs: s = body s x], the state [s] being what the loop updates. *)
Fixpoint for_each {S X} (body : S -> X -> run S) (xs : list X) (s : S) : run S :=
  match xs with
  | [] => ret s
  | x :: xs' => let* s' := body s x in for_each body xs' s'
  end.

(** What the operating system sees when the interpreter stops: the argument
    of [sys.exit], 1 after an uncaught exception, 0 at the end of the script. *)
Definition exit_status {A} (r : run A) : Z :=
  match snd r with
  | Ok _ => 0
  | SysExit c => c
  | Raised _ => 1
  end.

Definition printed (t : list event) : list string :=
  omap (fun e => match e with Print l => Some l | _ => None end) t.

Definition stdout {A} (r : run A) : list string := printed (fst r).

Definition files_read {A} (r : run A) : list string :=
  omap (fun e => match e with ReadFile p => Some p | _ => None end) (fst r).

(** ** Severities and formatting *)

Definition issue_levels : gmap string Z :=
  {[ "fatal" := 0; "error" := 1; "warning" := 2; "information" := 3 ]}.

(** [issue_levels[key]] *)
Definition issue_level (key : string) : run Z :=
  match issue_levels !! key with
  | Some n => ret n
  | None => raise (KeyError key)
  end.

Record Formatter : Type := {
  RESET : string;
  OK : string;
  ERROR : string;
  WARNING : string;
  INFORMATION : string;
  HEADING : string
}.

(** [Formatter()]: [__getattr__] answers the empty string for every name. *)
Definition plain_formatter : Formatter :=
  {| RESET := ""; OK := ""; ERROR := ""; WARNING := ""; INFORMATION := "";
     HEADING := "" |}.

Definition esc (s : string) : string := String "027"%char s.

Definition ColorFormatter : Formatter :=
  {| RESET := esc "[0m"; OK := esc "[1;32m"; ERROR := esc "[1;31m";
     WARNING := esc "[1;33m"; INFORMATION := esc "[1;34m";
     HEADING := esc "[1;37m" |}.

Definition newline : string := String "010"%char "".

(** [str(x)] inside an f-string, for a value that is a string or [None]. *)
Definition py_str (x : option string) : string :=
  match x with
  | Some s => s
  | None => "None"
  end.

Record Issue : Type := {
  line : string;
  col : string;
  severity : string;
  text : string;
  expression : string
}.

(** [Issue.print] *)
Definition Issue_print (formatter : Formatter) (self : Issue) : run unit :=
  let color :=
    if (severity self =? "fatal")%string || (severity self =? "error")%string
    then ERROR formatter
    else if (severity self =? "warning")%string then WARNING formatter
    else INFORMATION formatter in
  let out := "  -  " +:+ color +:+ severity self +:+ RESET formatter +:+ " at "
             +:+ expression self +:+ " (" +:+ line self +:+ ", " +:+ col self
             +:+ "):" +:+ newline in
  let out := out +:+ "     " +:+ text self in
  print out.

Record Result : Type := {
  file_path : string;
  id : option string;
  issues : list Issue
}.

Definition unknown_severity_message (severity file_path : string) : string :=
  "Unknown severity '" +:+ severity +:+ "' when validating file " +:+ file_path.

(** [Result.addIssue] *)
Definition addIssue (self : Result) (line col severity text expression : string)
  : run Result :=
  match issue_levels !! severity with
  | None =>
      raise (Exception (unknown_severity_message severity (file_path self)))
  | Some _ =>
      ret {| file_path := file_path self; id := id self;
             issues := (issues self ++ [Build_Issue line col severity text expression])%list |}
  end.

(** ** The documents the script reads *)

(** The outcome of [node.find(path)] followed by [.attrib["value"]]: the
    element is missing, it has no [value] attribute, or it has one. *)
Inductive element : Type :=
| Absent
| NoValue
| Value (v : string).

Definition attrib_value (e : element) : run string :=
  match e with
  | Absent => raise AttributeError
  | NoValue => raise (KeyError "value")
  | Value v => ret v
  end.

(** An [f:issue] element, seen through the five paths the script looks up. *)
Record issue_xml : Type := {
  x_text : element;        (* f:details/f:text *)
  x_line : element;        (* extension operationoutcome-issue-line *)
  x_col : element;         (* extension operationoutcome-issue-col *)
  x_severity : element;    (* f:severity *)
  x_expression : element   (* f:expression *)
}.

(** An [f:OperationOutcome] element. *)
Record outcome_xml : Type := {
  x_file : element;        (* extension operationoutcome-file *)
  x_issues : list issue_xml
}.

(** The report: its root is an OperationOutcome, or the OperationOutcome
    elements below the root are taken in document order. *)
Inductive report : Type :=
| SingleOutcome (root : outcome_xml)
| Bundle (descendants : list outcome_xml).

(** A rule of the YAML file: a dict with optional keys. *)
Record known_issue : Type := {
  message : option string;
  reason : option string;
  processed : bool         (* the key "processed" is present *)
}.

Definition ignored_map : Type := list (string * list known_issue).

(** The dict [ignored_issues]: resource id to the dict of the resource,
    which holds the key "ignored issues" or not. *)
Definition store : Type := gmap (option string) (option ignored_map).

(** What the three parsers give for a path; [None] is a file that cannot be
    opened or parsed. [yaml_other] is a YAML document that is not a dict. *)
Inductive yaml_doc : Type :=
| yaml_dict (d : store)
| yaml_other.

Record world : Type := {
  yaml_files : string -> option yaml_doc;
  report_files : string -> option report;
  resource_files : string -> option element   (* the first [f:id] below the root *)
}.

(** ** Dicts in insertion order *)

Fixpoint dict_get {V} (k : string) (d : list (string * V)) : option V :=
  match d with
  | [] => None
  | (k', v) :: d' => if (k =? k')%string then Some v else dict_get k d'
  end.

(** The value under an existing key is replaced in place. *)
Fixpoint dict_replace {V} (k : string) (v : V) (d : list (string * V))
  : list (string * V) :=
  match d with
  | [] => []
  | (k', v') :: d' =>
      if (k =? k')%string then (k', v) :: d' else (k', v') :: dict_replace k v d'
  end.

(** ** The walk over the report (lines 109-162) *)

(** [Result.__init__]: the resource file is parsed for its id. *)
Definition new_Result (w : world) (file_path : string) : run Result :=
  read_file file_path ;;
  match resource_files w file_path with
  | None => raise (FileError file_path)
  | Some e =>
      let* rid := except_AttributeError
                    (let* v := attrib_value e in ret (Some v)) None in
      ret {| file_path := file_path; id := rid; issues := [] |}
  end.

(** Lines 119-136: the five local variables [line], [col], [severity],
    [text] and [expression], gathered in one record. *)
Definition extract_fields (issue : issue_xml) : run Issue :=
  let* text := except_AttributeError (attrib_value (x_text issue))
                 "_No description_" in
  let* '(line, col) :=
    except_AttributeError
      (let* line := attrib_value (x_line issue) in
       let* col := attrib_value (x_col issue) in
       ret (line, col))
      ("?", "?") in
  let* severity := attrib_value (x_severity issue) in
  let* expression := except_AttributeError (attrib_value (x_expression issue)) "" in
  ret {| line := line; col := col; severity := severity; text := text;
         expression := expression |}.

(** [known_issue["processed"] = True] *)
Definition set_processed (k : known_issue) : known_issue :=
  {| message := message k; reason := reason k; processed := true |}.

Definition no_reason_line (rid : option string) (expression : string) : string :=
  "Issue at " +:+ py_str rid +:+ "/" +:+ expression
  +:+ " ignored without providing a reason".

(** Lines 141-148: the loop over the rules of one expression. It returns
    the flag [issue_ignored] and the rules as the loop leaves them. *)
Fixpoint match_known_issues (rid : option string) (expression text : string)
    (known : list known_issue) (issue_ignored : bool)
  : run (bool * list known_issue) :=
  match known with
  | [] => ret (issue_ignored, [])
  | known_issue :: rest =>
      let* '(issue_ignored, known_issue) :=
        match message known_issue with
        | Some m =>
            if String.prefix m text then
              match reason known_issue with
              | None => print (no_reason_line rid expression) ;; sys_exit 1
              | Some _ => ret (true, set_processed known_issue)
              end
            else ret (issue_ignored, known_issue)
        | None => ret (issue_ignored, known_issue)
        end in
      let* '(issue_ignored, rest) :=
        match_known_issues rid expression text rest issue_ignored in
      ret (issue_ignored, known_issue :: rest)
  end.

(** Lines 139-151: is the issue ignored?  [n_issues] is
    [len(outcome.findall("f:issue", ns))]. *)
Definition check_ignored (rid : option string) (n_issues : nat)
    (curr_ignored_issues : ignored_map) (f : Issue) : run (bool * ignored_map) :=
  match dict_get (expression f) curr_ignored_issues with
  | Some known =>
      let* '(issue_ignored, known) :=
        match_known_issues rid (expression f) (text f) known false in
      ret (issue_ignored, dict_replace (expression f) known curr_ignored_issues)
  | None =>
      if (severity f =? "information")%string && (text f =? "All OK")%string
         && (n_issues =? 1)%nat
      then ret (true, curr_ignored_issues)
      else ret (false, curr_ignored_issues)
  end.

(** Lines 117-154: the body of the loop over the issues of one outcome. *)
Definition process_issue (n_issues : nat) (st : ignored_map * Result)
    (issue : issue_xml) : run (ignored_map * Result) :=
  let '(curr_ignored_issues, result) := st in
  let* f := extract_fields issue in
  let* '(issue_ignored, curr_ignored_issues) :=
    check_ignored (id result) n_issues curr_ignored_issues f in
  if negb issue_ignored then
    let* result := addIssue result (line f) (col f) (severity f) (text f)
                     (expression f) in
    ret (curr_ignored_issues, result)
  else ret (curr_ignored_issues, result).

Definition stale_line (rid : option string) (expression : string) : string :=
  "An ignored issue was provided for " +:+ py_str rid +:+ "/" +:+ expression
  +:+ ", but the issue didn't occur".

(** Lines 158-162: every rule of the resource must carry the key
    "processed". *)
Definition check_known (rid : option string) (expression : string) (_ : unit)
    (k : known_issue) : run unit :=
  if processed k then ret tt
  else print (stale_line rid expression) ;; sys_exit 1.

Definition check_processed (rid : option string)
    (curr_ignored_issues : ignored_map) : run unit :=
  for_each (fun _ entry => for_each (check_known rid (fst entry)) (snd entry) tt)
    curr_ignored_issues tt.

(** Lines 113-115: the rules of the resource, or a fresh empty dict. *)
Definition current_ignored (ignored_issues : store) (rid : option string)
  : ignored_map :=
  match ignored_issues !! rid with
  | Some (Some m) => m
  | _ => []
  end.

(** The rules of the resource are the very dict held by [ignored_issues]:
    what the matching wrote is seen by later outcomes with the same id. *)
Definition write_back (ignored_issues : store) (rid : option string)
    (curr_ignored_issues : ignored_map) : store :=
  match ignored_issues !! rid with
  | Some (Some _) => <[rid := Some curr_ignored_issues]> ignored_issues
  | _ => ignored_issues
  end.

(** Lines 110-154: the resource is opened and its issues are filtered. *)
Definition scan_outcome (w : world) (ignored_issues : store)
    (outcome : outcome_xml) : run (ignored_map * Result) :=
  let* file_name := attrib_value (x_file outcome) in
  let* result := new_Result w file_name in
  let curr_ignored_issues := current_ignored ignored_issues (id result) in
  for_each (process_issue (length (x_issues outcome))) (x_issues outcome)
    (curr_ignored_issues, result).

(** Lines 109-162: the body of the loop over the outcomes. *)
Definition process_outcome (w : world) (st : store * list Result)
    (outcome : outcome_xml) : run (store * list Result) :=
  let '(ignored_issues, results) := st in
  let* '(curr_ignored_issues, result) := scan_outcome w ignored_issues outcome in
  let results := (results ++ [result])%list in
  check_processed (id result) curr_ignored_issues ;;
  ret (write_back ignored_issues (id result) curr_ignored_issues, results).

Definition walk (w : world) (ignored_issues : store) (outcomes : list outcome_xml)
  : run (list Result) :=
  let* '(_, results) := for_each (process_outcome w) outcomes (ignored_issues, []) in
  ret results.

(** ** The verdict (lines 164-184) *)

Definition report_issue (fail_level verbosity_level : Z) (formatter : Formatter)
    (success : bool) (issue : Issue) : run bool :=
  let* lvl := issue_level (severity issue) in
  let success := if lvl <=? fail_level then false else success in
  let* lvl := issue_level (severity issue) in
  (if lvl <=? verbosity_level then Issue_print formatter issue else ret tt) ;;
  ret success.

Definition heading (formatter : Formatter) (result : Result) : string :=
  let id_str := HEADING formatter in
  let id_str := id_str +:+ ("== " +:+ file_path result) in
  match id result with
  | Some i => if (i =? "")%string then id_str else id_str +:+ (" (" +:+ i +:+ ")")
  | None => id_str
  end.

Definition report_result (fail_level verbosity_level : Z) (formatter : Formatter)
    (success : bool) (result : Result) : run bool :=
  if (0 <? length (issues result))%nat then
    print (heading formatter result) ;;
    let* success :=
      for_each (report_issue fail_level verbosity_level formatter)
        (issues result) success in
    print "" ;;
    ret success
  else ret success.

Definition all_well (formatter : Formatter) : string :=
  OK formatter +:+ "All well" +:+ RESET formatter.

Definition errors_line (formatter : Formatter) : string :=
  ERROR formatter +:+ "There were errors during validation" +:+ RESET formatter.

Definition verdict (fail_level verbosity_level : Z) (formatter : Formatter)
    (results : list Result) : run unit :=
  let* success :=
    for_each (report_result fail_level verbosity_level formatter) results true in
  if negb success then print (errors_line formatter) ;; sys_exit 1
  else print (all_well formatter).

(** ** Options and the whole script *)

(** The values of the command line after [parser.parse_args()] has put the
    defaults in: [--fail-at], [--verbosity-level], [--colorize],
    [--ignored-issues]. *)
Record options : Type := {
  opt_fail_at : string;
  opt_verbosity_level : string;
  opt_colorize : bool;
  opt_ignored_issues : option string
}.

Definition choices : list string := ["error"; "warning"; "information"].

(** [optparse.check_choice]: an option of type "choice" whose value is
    outside its choices is refused by [parse_args] through [parser.error],
    with the message
    [option <opt>: invalid choice: <repr(value)> (choose from <choices>)].
    The option is named here by its long name and the value is put between
    single quotes; optparse names the option as it was typed ([-a] or
    [--fail-at]), writes the value with [repr], and reports the first bad
    option in the order of the command line, which the record of options
    does not keep. *)
Definition check_choice (opt value : string) : run unit :=
  if existsb (String.eqb value) choices then ret tt
  else parser_error ("option " +:+ opt +:+ ": invalid choice: '" +:+ value
                     +:+ "' (choose from 'error', 'warning', 'information')").

Definition silenced : string := "Chosen verbosity level would silence fatal issues".

(** Lines 76-83: the two thresholds of a command line that is accepted. *)
Definition parse_options (options : options) (args : list string) : run (Z * Z) :=
  check_choice "--fail-at" (opt_fail_at options) ;;
  check_choice "--verbosity-level" (opt_verbosity_level options) ;;
  (if negb (length args =? 1)%nat
   then parser_error "Exactly one argument expected" else ret tt) ;;
  let* fail_level := issue_level (opt_fail_at options) in
  let* verbosity_level := issue_level (opt_verbosity_level options) in
  (if fail_level >? verbosity_level then parser_error silenced else ret tt) ;;
  ret (fail_level, verbosity_level).

(** Lines 90-96 *)
Definition load_ignored_issues (w : world) (options : options) : run store :=
  match opt_ignored_issues options with
  | None => ret ∅
  | Some path =>
      if (path =? "")%string then ret ∅
      else
        read_file path ;;
        match yaml_files w path with
        | None => raise (FileError path)
        | Some (yaml_dict d) => ret d
        | Some yaml_other => ret ∅
        end
  end.

(** Lines 98-107; [args[0]] raises IndexError on an empty list. *)
Definition load_outcomes (w : world) (args : list string) : run (list outcome_xml) :=
  match args with
  | [] => raise IndexError
  | path :: _ =>
      read_file path ;;
      match report_files w path with
      | None => raise (FileError path)
      | Some (SingleOutcome root) => ret [root]
      | Some (Bundle descendants) => ret descendants
      end
  end.

(** Lines 85-88 *)
Definition formatter_of (options : options) : Formatter :=
  if opt_colorize options then ColorFormatter else plain_formatter.

(** Lines 90-162: the files are read and the report is walked. *)
Definition gather (w : world) (options : options) (args : list string)
  : run (list Result) :=
  let* ignored_issues := load_ignored_issues w options in
  let* outcomes := load_outcomes w args in
  walk w ignored_issues outcomes.

Definition main (w : world) (options : options) (args : list string) : run unit :=
  let* '(fail_level, verbosity_level) := parse_options options args in
  let formatter := formatter_of options in
  let* results := gather w options args in
  verdict fail_level verbosity_level formatter results.

(** ** Vocabulary of the statements *)

(** A run that never writes a usage message, leaves through [sys.exit] only
    with status 1, and whose events satisfy [Q] when it carries on. *)
Definition obeys (Q : list event -> Prop) {A} (r : run A) : Prop :=
  (forall m, Usage m ∉ fst r) /\
  match snd r with
  | Ok _ => Q (fst r)
  | SysExit c => c = 1
  | Raised _ => True
  end.

Definition silent (t : list event) : Prop := printed t = [].

Definition anything (t : list event) : Prop := True.

(** The severity of every issue kept in the result is a key of
    [issue_levels]. *)
Definition valid_result (r : Result) : Prop :=
  forall i, i ∈ issues r -> is_Some (issue_levels !! severity i).

(** [issue_levels[issue.severity] <= fail_level], for a recognised severity. *)
Definition breaches (fail_level : Z) (issue : Issue) : bool :=
  match issue_levels !! severity issue with
  | Some lvl => lvl <=? fail_level
  | None => false
  end.

(** The rule matches the text: it has a message and the text starts with it. *)
Definition matches (text : string) (k : known_issue) : bool :=
  match message k with
  | Some m => String.prefix m text
  | None => false
  end.

(** The rule matches the text and gives no reason. *)
Definition unjustified (text : string) (k : known_issue) : bool :=
  matches text k && match reason k with None => true | Some _ => false end.

(** What the loop over the rules does to a rule with a reason. *)
Definition mark (text : string) (k : known_issue) : known_issue :=
  if matches text k then set_processed k else k.

(** The two ways in which the script stops before its end. *)
Inductive stop : Type :=
| Exited (code : Z)
| Uncaught (e : exn).

Definition stopped {A} (s : stop) : status A :=
  match s with
  | Exited c => SysExit c
  | Uncaught e => Raised e
  end.

(** The rules of resource [rid] hold the rule [k] under expression [e]. *)
Definition has_rule (ignored_issues : store) (rid : option string) (e : string)
    (k : known_issue) : Prop :=
  exists m known,
    ignored_issues !! rid = Some (Some m) /\ (e, known) ∈ m /\ k ∈ known.

(** The first expression, in the order of the dict, with a rule that is
    not marked. *)
Definition first_stale (curr_ignored_issues : ignored_map)
  : option (string * list known_issue) :=
  List.find (fun entry => negb (forallb processed (snd entry))) curr_ignored_issues.

(** ** Vocabulary for the output and for the rules *)

(** The two lines that [Issue.print] writes in one [print]. *)
Definition issue_block (formatter : Formatter) (self : Issue) : string :=
  let color :=
    if (severity self =? "fatal")%string || (severity self =? "error")%string
    then ERROR formatter
    else if (severity self =? "warning")%string then WARNING formatter
    else INFORMATION formatter in
  ("  -  " +:+ color +:+ severity self +:+ RESET formatter +:+ " at "
   +:+ expression self +:+ " (" +:+ line self +:+ ", " +:+ col self
   +:+ "):" +:+ newline) +:+ "     " +:+ text self.

(** What lines 166-179 print for one result: nothing without issues, else
    the heading, the issues at or below the verbosity level in the order of
    the report, and an empty line. *)
Definition result_lines (verbosity_level : Z) (formatter : Formatter)
    (result : Result) : list string :=
  match issues result with
  | [] => []
  | _ :: _ =>
      (heading formatter result
       :: map (issue_block formatter)
            (List.filter (breaches verbosity_level) (issues result))
       ++ [""])%list
  end.

(** Some kept issue is at or below the fail level. *)
Definition failing (fail_level : Z) (results : list Result) : bool :=
  existsb (fun r => existsb (breaches fail_level) (issues r)) results.

Definition verdict_lines (fail_level verbosity_level : Z) (formatter : Formatter)
    (results : list Result) : list string :=
  (concat (map (result_lines verbosity_level formatter) results)
   ++ [if failing fail_level results then errors_line formatter
       else all_well formatter])%list.

(** The rule [k'] is the rule [k], possibly marked. *)
Definition marks_rule (k k' : known_issue) : Prop :=
  message k' = message k /\ reason k' = reason k /\
  (processed k = true -> processed k' = true).

(** The same expressions in the same order, with the same rules, some of
    them marked. *)
Definition marks_map (m m' : ignored_map) : Prop :=
  Forall2 (fun en en' => fst en' = fst en /\ Forall2 marks_rule (snd en) (snd en'))
    m m'.

Definition marks_entry (x x' : option ignored_map) : Prop :=
  match x, x' with
  | Some m, Some m' => marks_map m m'
  | None, None => True
  | _, _ => False
  end.

Definition marks_store (s s' : store) : Prop :=
  forall rid,
    match s !! rid, s' !! rid with
    | Some x, Some x' => marks_entry x x'
    | None, None => True
    | _, _ => False
    end.

(** Every rule of the dict carries the key "processed". *)
Definition all_processed (m : ignored_map) : Prop :=
  forall e known k, (e, known) ∈ m -> k ∈ known -> processed k = true.

(** The issue is ignored on the strength of a rule with a reason, or as
    the marker of the validator. *)
Definition justified (n_issues : nat) (curr_ignored_issues : ignored_map)
    (f : Issue) : Prop :=
  (exists known k,
      dict_get (expression f) curr_ignored_issues = Some known /\ k ∈ known /\
      matches (text f) k = true /\ is_Some (reason k)) \/
  (dict_get (expression f) curr_ignored_issues = None /\
   severity f = "information" /\ text f = "All OK" /\ n_issues = 1%nat).

(** The two dicts hold the same rules for every resource id but [rid]. *)
Definition agree_off (rid : option string) (s s' : store) : Prop :=
  forall rid', rid' <> rid -> s !! rid' = s' !! rid'.

(** Two runs of the loop over the outcomes with the same events, the same
    end and the same results, the dicts agreeing off [rid]. *)
Definition same_walk (rid : option string) (r1 r2 : run (store * list Result))
  : Prop :=
  fst r1 = fst r2 /\
  match snd r1, snd r2 with
  | Ok (s1, l1), Ok (s2, l2) => l1 = l2 /\ agree_off rid s1 s2
  | SysExit c1, SysExit c2 => c1 = c2
  | Raised e1, Raised e2 => e1 = e2
  | _, _ => False
  end.

(** The run does not end through [sys.exit]. *)
Definition no_exit {A} (r : run A) : Prop := forall c, snd r <> SysExit c.

(** No rule is registered, for any resource id. *)
Definition rules_free (s : store) : Prop :=
  forall rid, current_ignored s rid = [].

(** ** Sample documents

    One report file, one file of known issues and three resource files:
    the resources with ids "a" and "b" and a resource without id. *)

Definition sample_world (d : store) (outcomes : list outcome_xml) : world :=
  {| yaml_files := fun p =>
       if (p =? "known.yaml")%string then Some (yaml_dict d) else None;
     report_files := fun p =>
       if (p =? "report.xml")%string then Some (Bundle outcomes) else None;
     resource_files := fun p =>
       if (p =? "a.xml")%string then Some (Value "a")
       else if (p =? "b.xml")%string then Some (Value "b")
       else if (p =? "anon.xml")%string then Some Absent
       else None |}.

(** The options of a command line that gives none, and the same with
    [--ignored-issues known.yaml]. *)
Definition default_options : options :=
  {| opt_fail_at := "error"; opt_verbosity_level := "information";
     opt_colorize := false; opt_ignored_issues := None |}.

Definition known_options : options :=
  {| opt_fail_at := "error"; opt_verbosity_level := "information";
     opt_colorize := false; opt_ignored_issues := Some "known.yaml" |}.

Definition sample_issue (severity text expression : string) : issue_xml :=
  {| x_text := Value text; x_line := Value "3"; x_col := Value "7";
     x_severity := Value severity; x_expression := Value expression |}.

Definition sample_rule (message reason : option string) : known_issue :=
  {| message := message; reason := reason; processed := false |}.

Definition outcome_of (file : string) (issues : list issue_xml) : outcome_xml :=
  {| x_file := Value file; x_issues := issues |}.

(** The "All OK" marker of the validator, without location or expression. *)
Definition all_ok_issue : issue_xml :=
  {| x_text := Value "All OK"; x_line := Absent; x_col := Absent;
     x_severity := Value "information"; x_expression := Absent |}.

(** Two resources, each with a rule that no issue of the report uses. *)
Definition two_stale_rules : store :=
  {[ Some "a" := Some [("Patient", [sample_rule (Some "Bad") (Some "known")])];
     Some "b" := Some [("Observation", [sample_rule (Some "Odd") (Some "known")])] ]}.

(** A rule without message, and in the same file a rule without reason
    that an issue of the report matches. *)
Definition no_message_rules : store :=
  {[ Some "a" := Some [("Patient", [sample_rule None (Some "known")]);
                       ("Observation", [sample_rule (Some "Bad") None])] ]}.

(** A rule that no issue uses under "Observation", then a rule without
    message under "Patient", for the resource "a". *)
Definition no_message_second : store :=
  {[ Some "a" := Some [("Observation", [sample_rule (Some "Odd") (Some "known")]);
                       ("Patient", [sample_rule None (Some "known")])] ]}.

(** A rule without message, written in the file with a key "processed" of
    its own. *)
Definition marked_in_file : store :=
  {[ Some "a" := Some [("Patient", [ {| message := None; reason := Some "known";
                                        processed := true |} ])] ]}.

(** * Properties *)

(** ** The monad of runs *)

Section Bind.
Context {A B : Type}.
Implicit Types (m : run A) (f : A -> run B).

Lemma bind_ret_l (a : A) f : bind (ret a) f = f a.
Proof. unfold bind, ret. now destruct (f a). Qed.

Lemma bind_Ok m f t a t' r :
  m = (t, Ok a) -> f a = (t', r) -> bind m f = ((t ++ t')%list, r).
Proof. intros -> Hf. unfold bind. now rewrite Hf. Qed.

Lemma bind_SysExit m f t c : m = (t, SysExit c) -> bind m f = (t, SysExit c).
Proof. now intros ->. Qed.

Lemma bind_Raised m f t e : m = (t, Raised e) -> bind m f = (t, Raised e).
Proof. now intros ->. Qed.

Lemma bind_Ok_inv m f t b :
  bind m f = (t, Ok b) ->
  exists t1 a t2, m = (t1, Ok a) /\ f a = (t2, Ok b) /\ t = (t1 ++ t2)%list.
Proof.
  destruct m as [t1 [a|c|e]]; simpl; try discriminate.
  destruct (f a) as [t2 r] eqn:Hf. intros [= <- ->]. now exists t1, a, t2.
Qed.

Lemma bind_ext m f (g : A -> run B) : (forall a, f a = g a) -> bind m f = bind m g.
Proof. intros H. destruct m as [t [a|c|e]]; simpl; try reflexivity. now rewrite H. Qed.

End Bind.

Lemma bind_assoc {A B C} (m : run A) (f : A -> run B) (g : B -> run C) :
  bind (bind m f) g = bind m (fun a => bind (f a) g).
Proof.
  destruct m as [t [a|c|e]]; simpl; try reflexivity.
  destruct (f a) as [t1 [b|c|e]]; simpl; try reflexivity.
  destruct (g b) as [t2 r]. now rewrite app_assoc.
Qed.

Lemma for_each_app {S X} (body : S -> X -> run S) xs ys s :
  for_each body (xs ++ ys)%list s = bind (for_each body xs s) (for_each body ys).
Proof.
  revert s. induction xs as [|x xs IH]; intros s; cbn [for_each app].
  - now rewrite bind_ret_l.
  - rewrite bind_assoc. now apply bind_ext.
Qed.

Lemma for_each_invariant {S X} (P : S -> Prop) (body : S -> X -> run S) xs :
  (forall s x t s', P s -> body s x = (t, Ok s') -> P s') ->
  forall s t s', P s -> for_each body xs s = (t, Ok s') -> P s'.
Proof.
  intros Hbody. induction xs as [|x xs IH]; simpl; intros s t s' Hs H.
  - now injection H as _ <-.
  - apply bind_Ok_inv in H as (t1 & s1 & t2 & H1 & H2 & _). eauto.
Qed.

(** A loop stops where its body stops. *)
Lemma for_each_stops {S X} (body : S -> X -> run S) pre x post s t1 s1 t2 r :
  for_each body pre s = (t1, Ok s1) ->
  body s1 x = (t2, r) ->
  (forall a, r <> Ok a) ->
  for_each body (pre ++ x :: post)%list s = ((t1 ++ t2)%list, r).
Proof.
  intros Hpre Hx Hr. rewrite for_each_app. apply (bind_Ok _ _ _ _ _ _ Hpre).
  simpl. rewrite Hx. destruct r; simpl; try reflexivity. now destruct (Hr a).
Qed.

Lemma printed_app t1 t2 : printed (t1 ++ t2) = (printed t1 ++ printed t2)%list.
Proof. unfold printed. apply omap_app. Qed.

(** ** Runs that obey [Q] *)

Section Obeys.
Variable Q : list event -> Prop.
Hypothesis Q_nil : Q [].
Hypothesis Q_app : forall t1 t2, Q t1 -> Q t2 -> Q (t1 ++ t2)%list.

Lemma obeys_ret {A} (a : A) : obeys Q (ret a).
Proof. split; simpl; [intros m H; inversion H | exact Q_nil]. Qed.

Lemma obeys_raise {A} e : obeys Q (@raise A e).
Proof. split; simpl; [intros m H; inversion H | exact I]. Qed.

Lemma obeys_bind {A B} (m : run A) (f : A -> run B) :
  obeys Q m -> (forall a, obeys Q (f a)) -> obeys Q (bind m f).
Proof.
  intros [Hu Hm] Hf. destruct m as [t [a|c|e]]; simpl in *; try (split; assumption).
  specialize (Hf a). destruct (f a) as [t' r]. destruct Hf as [Hu' Hf]. simpl in *.
  split.
  - intros msg [H|H]%elem_of_app; [now apply (Hu msg) | now apply (Hu' msg)].
  - destruct r; simpl; auto.
Qed.

Lemma obeys_for_each {S X} (body : S -> X -> run S) xs s :
  (forall s x, obeys Q (body s x)) -> obeys Q (for_each body xs s).
Proof.
  intros Hbody. revert s. induction xs as [|x xs IH]; intros s; simpl.
  - apply obeys_ret.
  - apply obeys_bind; auto.
Qed.

Lemma obeys_print_exit {A} l : obeys Q (print l ;; @sys_exit A 1).
Proof.
  split; simpl; [|reflexivity].
  intros m H. apply list_elem_of_singleton in H. discriminate.
Qed.

Lemma obeys_except {A} (m : run A) d :
  obeys Q m -> (forall t e, m = (t, Raised e) -> Q t) ->
  obeys Q (except_AttributeError m d).
Proof.
  intros [Hu Hm] Hq. destruct m as [t [a|c|e]]; try (split; assumption).
  destruct e; try (split; assumption). split; [exact Hu|]. simpl. eauto.
Qed.

Lemma obeys_attrib_value e : obeys Q (attrib_value e).
Proof. destruct e; [apply obeys_raise | apply obeys_raise | apply obeys_ret]. Qed.

End Obeys.

Lemma silent_nil : silent [].
Proof. reflexivity. Qed.

Lemma silent_app t1 t2 : silent t1 -> silent t2 -> silent (t1 ++ t2).
Proof. unfold silent. rewrite printed_app. now intros -> ->. Qed.

Lemma anything_app t1 t2 : anything t1 -> anything t2 -> anything (t1 ++ t2).
Proof. easy. Qed.

(** A run that obeys the strict discipline obeys the lax one. *)
Lemma obeys_weaken {A} (r : run A) : obeys silent r -> obeys anything r.
Proof. intros [Hu H]. split; [exact Hu|]. now destruct (snd r). Qed.

(** ** The walk is silent unless it stops the script *)

Section Discipline.
Variable Q : list event -> Prop.
Hypothesis Q_nil : Q [].
Hypothesis Q_app : forall t1 t2, Q t1 -> Q t2 -> Q (t1 ++ t2)%list.
Hypothesis Q_read : forall p, Q [ReadFile p].

Ltac obey :=
  repeat first
    [ apply (obeys_ret Q Q_nil) | apply obeys_raise | apply obeys_print_exit
    | apply (obeys_attrib_value Q Q_nil) | apply (obeys_bind Q Q_app)
    | apply (obeys_for_each Q Q_nil Q_app) | intros ? ].

Lemma obeys_read_file p : obeys Q (read_file p).
Proof.
  split; simpl; [|apply Q_read].
  intros m H. apply list_elem_of_singleton in H. discriminate.
Qed.

Lemma extract_fields_cases issue :
  (exists f, extract_fields issue = ([], Ok f)) \/
  (exists e, extract_fields issue = ([], Raised e)).
Proof.
  destruct issue as [[| |?] [| |?] [| |?] [| |?] [| |?]];
    first [ left; eexists; reflexivity | right; eexists; reflexivity ].
Qed.

Lemma obeys_extract_fields issue : obeys Q (extract_fields issue).
Proof.
  destruct (extract_fields_cases issue) as [[f ->]|[e ->]]; obey.
Qed.

Lemma obeys_new_Result w p : obeys Q (new_Result w p).
Proof.
  unfold new_Result. apply (obeys_bind Q Q_app); [apply obeys_read_file|].
  intros _. destruct (resource_files w p) as [[| |v]|]; simpl; obey.
Qed.

Lemma obeys_match_known_issues rid e txt known ig :
  obeys Q (match_known_issues rid e txt known ig).
Proof.
  revert ig. induction known as [|k known IH]; intros ig; simpl; obey.
  - destruct (message k) as [m|]; obey.
    destruct (String.prefix m txt); obey. destruct (reason k); obey.
  - destruct a. obey; [apply IH|]. destruct a. obey.
Qed.

Lemma obeys_check_ignored rid n curr f : obeys Q (check_ignored rid n curr f).
Proof.
  unfold check_ignored. destruct (dict_get _ _); obey.
  - apply obeys_match_known_issues.
  - destruct a. obey.
  - destruct (_ && _); obey.
Qed.

Lemma obeys_addIssue r l c s t e : obeys Q (addIssue r l c s t e).
Proof. unfold addIssue. destruct (issue_levels !! s); obey. Qed.

Lemma obeys_process_issue n st issue : obeys Q (process_issue n st issue).
Proof.
  destruct st as [curr result]. unfold process_issue.
  apply (obeys_bind Q Q_app); [apply obeys_extract_fields|]. intros f.
  apply (obeys_bind Q Q_app); [apply obeys_check_ignored|].
  intros [[] curr']; simpl; obey. apply obeys_addIssue.
Qed.

Lemma obeys_check_processed rid curr : obeys Q (check_processed rid curr).
Proof.
  unfold check_processed. apply (obeys_for_each Q Q_nil Q_app). intros u entry.
  apply (obeys_for_each Q Q_nil Q_app). intros u' k.
  unfold check_known. destruct (processed k); obey.
Qed.

Lemma obeys_scan_outcome w ign outcome : obeys Q (scan_outcome w ign outcome).
Proof.
  unfold scan_outcome.
  apply (obeys_bind Q Q_app); [apply (obeys_attrib_value Q Q_nil)|]. intros p.
  apply (obeys_bind Q Q_app); [apply obeys_new_Result|]. intros r.
  apply (obeys_for_each Q Q_nil Q_app). intros. apply obeys_process_issue.
Qed.

Lemma obeys_process_outcome w st outcome : obeys Q (process_outcome w st outcome).
Proof.
  destruct st as [ign results]. unfold process_outcome.
  apply (obeys_bind Q Q_app); [apply obeys_scan_outcome|]. intros [curr result].
  apply (obeys_bind Q Q_app); [apply obeys_check_processed|]. intros _.
  apply (obeys_ret Q Q_nil).
Qed.

Lemma obeys_walk w ign outcomes : obeys Q (walk w ign outcomes).
Proof.
  unfold walk. apply (obeys_bind Q Q_app).
  - apply (obeys_for_each Q Q_nil Q_app). intros. apply obeys_process_outcome.
  - intros [? ?]. apply (obeys_ret Q Q_nil).
Qed.

Lemma obeys_load_ignored_issues w o : obeys Q (load_ignored_issues w o).
Proof.
  unfold load_ignored_issues. destruct (opt_ignored_issues o) as [p|]; obey.
  destruct (p =? "")%string; obey; [apply obeys_read_file|].
  destruct (yaml_files w p) as [[d|]|]; obey.
Qed.

Lemma obeys_load_outcomes w args : obeys Q (load_outcomes w args).
Proof.
  unfold load_outcomes. destruct args as [|p args]; obey; [apply obeys_read_file|].
  destruct (report_files w p) as [[o|os]|]; obey.
Qed.

End Discipline.

Lemma obeys_gather Q w o args :
  Q [] -> (forall t1 t2, Q t1 -> Q t2 -> Q (t1 ++ t2)%list) ->
  (forall p, Q [ReadFile p]) -> obeys Q (gather w o args).
Proof.
  intros Q_nil Q_app Q_read. unfold gather.
  apply (obeys_bind Q Q_app); [now apply obeys_load_ignored_issues|]. intros ign.
  apply (obeys_bind Q Q_app); [now apply obeys_load_outcomes|]. intros os.
  now apply obeys_walk.
Qed.

(** A walk that comes to its end has printed nothing. *)
Lemma gather_silent w o args t results :
  gather w o args = (t, Ok results) -> printed t = [].
Proof.
  intros H.
  destruct (obeys_gather silent w o args silent_nil silent_app) as [_ Hq];
    [reflexivity|].
  rewrite H in Hq. exact Hq.
Qed.

(** ** Kept issues have a recognised severity *)

Lemma addIssue_Ok r l c s txt e t r' :
  addIssue r l c s txt e = (t, Ok r') ->
  t = [] /\ is_Some (issue_levels !! s) /\
  r' = {| file_path := file_path r; id := id r;
          issues := (issues r ++ [Build_Issue l c s txt e])%list |}.
Proof.
  unfold addIssue. destruct (issue_levels !! s) as [lvl|] eqn:E; [|discriminate].
  intros [= <- <-]. eauto.
Qed.

Lemma process_issue_Ok n curr r issue t curr' r' :
  process_issue n (curr, r) issue = (t, Ok (curr', r')) ->
  exists f ig,
    extract_fields issue = ([], Ok f) /\
    check_ignored (id r) n curr f = (t, Ok (ig, curr')) /\
    (ig = true -> r' = r) /\
    (ig = false -> is_Some (issue_levels !! severity f) /\
       r' = {| file_path := file_path r; id := id r;
               issues := (issues r ++ [Build_Issue (line f) (col f) (severity f)
                                         (text f) (expression f)])%list |}).
Proof.
  unfold process_issue. intros H.
  apply bind_Ok_inv in H as (t1 & f & t2 & Hf & H & ->).
  destruct (extract_fields_cases issue) as [[f' Hf']|[e Hf']];
    rewrite Hf' in Hf; [|discriminate]. injection Hf as <- <-.
  apply bind_Ok_inv in H as (t3 & [ig c] & t4 & Hc & H & ->).
  exists f', ig. split; [assumption|]. destruct ig; simpl in H.
  - injection H as <- <- <-. rewrite app_nil_r. now repeat split.
  - apply bind_Ok_inv in H as (t5 & r1 & t6 & Ha & H & ->).
    injection H as <- <- <-. apply addIssue_Ok in Ha as (-> & Hs & ->).
    rewrite !app_nil_r. repeat split; try assumption; discriminate.
Qed.

Lemma process_issue_valid n curr r issue t curr' r' :
  process_issue n (curr, r) issue = (t, Ok (curr', r')) ->
  valid_result r -> valid_result r' /\ id r' = id r /\ file_path r' = file_path r.
Proof.
  intros (f & [] & _ & _ & Ht & Hf)%process_issue_Ok Hv.
  - now rewrite (Ht eq_refl).
  - destruct (Hf eq_refl) as [Hs ->]. repeat split. intros i. simpl.
    rewrite elem_of_app, list_elem_of_singleton. intros [Hi| ->]; auto.
Qed.

Lemma new_Result_Ok w p t r :
  new_Result w p = (t, Ok r) -> t = [ReadFile p] /\ file_path r = p /\ issues r = [].
Proof.
  unfold new_Result. destruct (resource_files w p) as [[| |v]|]; simpl;
    intros [= <- <-]; auto.
Qed.

Lemma scan_outcome_valid w ign outcome t curr r :
  scan_outcome w ign outcome = (t, Ok (curr, r)) -> valid_result r.
Proof.
  unfold scan_outcome. intros H.
  apply bind_Ok_inv in H as (t1 & p & t2 & _ & H & ->).
  apply bind_Ok_inv in H as (t3 & r0 & t4 & Hr & H & ->).
  apply new_Result_Ok in Hr as (_ & _ & Hr).
  revert H. generalize (current_ignored ign (id r0)). intros c0 H.
  refine (for_each_invariant (fun st => valid_result (snd st)) _ _ _ (c0, r0) _
            (curr, r) _ H).
  - intros [c1 r1] x t' [c2 r2] Hv Hx. now apply process_issue_valid in Hx.
  - intros i. simpl. rewrite Hr. now intros ?%elem_of_nil.
Qed.

(** ** The sweep for rules that no issue used *)

Lemma check_known_loop rid e known :
  for_each (check_known rid e) known tt =
  if forallb processed known then ([], Ok tt)
  else ([Print (stale_line rid e)], SysExit 1).
Proof.
  induction known as [|k known IH]; [reflexivity|].
  cbn [for_each forallb]. unfold check_known at 1.
  destruct (processed k); [|reflexivity].
  rewrite bind_ret_l. exact IH.
Qed.

Lemma check_processed_spec rid curr :
  check_processed rid curr =
  match List.find (fun entry => negb (forallb processed (snd entry))) curr with
  | None => ([], Ok tt)
  | Some entry => ([Print (stale_line rid (fst entry))], SysExit 1)
  end.
Proof.
  unfold check_processed. induction curr as [|[e known] curr IH]; [reflexivity|].
  cbn [for_each List.find fst snd]. rewrite check_known_loop.
  destruct (forallb processed known); [|reflexivity].
  rewrite (bind_ret_l tt). exact IH.
Qed.

Lemma unprocessed_found (curr : ignored_map) e known k :
  (e, known) ∈ curr -> k ∈ known -> processed k = false ->
  exists e' known' k',
    List.find (fun entry => negb (forallb processed (snd entry))) curr
      = Some (e', known') /\
    (e', known') ∈ curr /\ k' ∈ known' /\ processed k' = false.
Proof.
  intros He Hk Hp.
  destruct (List.find _ curr) as [[e' known']|] eqn:F.
  - apply find_some in F as [Hin F]. simpl in F.
    apply negb_true_iff, not_true_iff_false in F.
    rewrite forallb_forall in F.
    destruct (forallb processed known') eqn:B.
    + rewrite forallb_forall in B. now destruct F.
    + assert (exists k', In k' known' /\ processed k' = false) as (k' & Hk' & Hp').
      { clear -B. induction known' as [|x l IH]; [discriminate|]. simpl in B.
        destruct (processed x) eqn:E.
        - destruct (IH B) as (k' & ? & ?). exists k'. simpl. auto.
        - exists x. simpl. auto. }
      exists e', known', k'. rewrite <- !list_elem_of_In in *. auto.
  - exfalso. apply list_elem_of_In in He.
    pose proof (find_none _ _ F _ He) as N. simpl in N.
    apply negb_false_iff in N. rewrite forallb_forall in N.
    apply list_elem_of_In in Hk. specialize (N _ Hk). congruence.
Qed.

Lemma process_outcome_Ok w ign results outcome t ign' results' :
  process_outcome w (ign, results) outcome = (t, Ok (ign', results')) ->
  exists curr r,
    scan_outcome w ign outcome = (t, Ok (curr, r)) /\
    check_processed (id r) curr = ([], Ok tt) /\
    ign' = write_back ign (id r) curr /\ results' = (results ++ [r])%list.
Proof.
  unfold process_outcome. intros H.
  apply bind_Ok_inv in H as (t1 & [curr r] & t2 & Hs & H & ->).
  apply bind_Ok_inv in H as (t3 & [] & t4 & Hc & H & ->).
  injection H as <- <- <-. exists curr, r.
  rewrite check_processed_spec in Hc |- *.
  destruct (List.find _ curr); [discriminate|]. injection Hc as <-.
  now rewrite !app_nil_r.
Qed.

Lemma walk_loop_valid w outcomes : forall ign results t ign' results',
  for_each (process_outcome w) outcomes (ign, results) = (t, Ok (ign', results')) ->
  Forall valid_result results -> Forall valid_result results'.
Proof.
  intros ign results t ign' results' H Hv.
  refine (for_each_invariant (fun st => Forall valid_result (snd st)) _ _ _
            (ign, results) _ (ign', results') Hv H).
  intros [i1 r1] x t' [i2 r2] Hv1 Hx. simpl in *.
  apply process_outcome_Ok in Hx as (curr & r & Hs & _ & _ & ->).
  apply Forall_app. split; [assumption|]. constructor; [|constructor].
  eapply scan_outcome_valid, Hs.
Qed.

Lemma gather_valid w o args t results :
  gather w o args = (t, Ok results) -> Forall valid_result results.
Proof.
  unfold gather, walk. intros H.
  apply bind_Ok_inv in H as (t1 & ign & t2 & _ & H & ->).
  apply bind_Ok_inv in H as (t3 & os & t4 & _ & H & ->).
  apply bind_Ok_inv in H as (t5 & [ign' rs] & t6 & H & E & ->).
  injection E as <- <-. eapply walk_loop_valid; [exact H | constructor].
Qed.

(** ** The verdict *)

Lemma obeys_verdict fl vl fmt results : obeys anything (verdict fl vl fmt results).
Proof.
  assert (Hp : forall l, obeys anything (print l)).
  { intros l. split; simpl; [|exact I].
    intros m H. apply list_elem_of_singleton in H. discriminate. }
  assert (Hl : forall s, obeys anything (issue_level s)).
  { intros s. unfold issue_level. destruct (issue_levels !! s);
      [now apply obeys_ret | apply obeys_raise]. }
  unfold verdict. apply (obeys_bind anything anything_app).
  - apply (obeys_for_each anything I anything_app). intros s r.
    unfold report_result. destruct (0 <? _)%nat; [|now apply obeys_ret].
    apply (obeys_bind anything anything_app); [apply Hp|]. intros _.
    apply (obeys_bind anything anything_app).
    + apply (obeys_for_each anything I anything_app). intros s' i.
      unfold report_issue.
      apply (obeys_bind anything anything_app); [apply Hl|]. intros lvl.
      apply (obeys_bind anything anything_app); [apply Hl|]. intros lvl'.
      apply (obeys_bind anything anything_app); [|intros; now apply obeys_ret].
      destruct (lvl' <=? vl); [apply Hp | now apply obeys_ret].
    + intros s'. apply (obeys_bind anything anything_app); [apply Hp|].
      intros; now apply obeys_ret.
  - intros []; simpl; [apply Hp | apply obeys_print_exit].
Qed.

Lemma report_issue_valid fl vl fmt success i :
  is_Some (issue_levels !! severity i) ->
  exists out,
    report_issue fl vl fmt success i
    = (out, Ok (if breaches fl i then false else success)).
Proof.
  intros [lvl E]. unfold report_issue, issue_level, breaches. rewrite E.
  rewrite !bind_ret_l. destruct (lvl <=? vl); eexists; reflexivity.
Qed.

Lemma report_issues_valid fl vl fmt l : forall success,
  (forall i, i ∈ l -> is_Some (issue_levels !! severity i)) ->
  exists out,
    for_each (report_issue fl vl fmt) l success
    = (out, Ok (success && negb (existsb (breaches fl) l))).
Proof.
  induction l as [|i l IH]; intros success Hv; cbn [for_each existsb].
  - exists []. now rewrite andb_true_r.
  - destruct (report_issue_valid fl vl fmt success i) as [o1 E1].
    { apply Hv. now left. }
    destruct (IH (if breaches fl i then false else success)) as [o2 E2].
    { intros j Hj. apply Hv. now right. }
    exists (o1 ++ o2)%list.
    etransitivity; [eapply bind_Ok; [exact E1 | exact E2]|].
    now destruct (breaches fl i), success.
Qed.

Lemma report_result_valid fl vl fmt success r :
  valid_result r ->
  exists out,
    report_result fl vl fmt success r
    = (out, Ok (success && negb (existsb (breaches fl) (issues r)))) /\
    (issues r = [] -> out = []).
Proof.
  intros Hv. unfold report_result. destruct (issues r) as [|i l] eqn:E; simpl.
  - exists []. now rewrite andb_true_r.
  - destruct (report_issues_valid fl vl fmt (i :: l) success) as [o Ho].
    { intros j Hj. apply Hv. now rewrite E. }
    simpl in Ho. rewrite Ho. eexists. split; [reflexivity | discriminate].
Qed.

Lemma report_results_valid fl vl fmt results : forall success,
  Forall valid_result results ->
  exists out,
    for_each (report_result fl vl fmt) results success
    = (out, Ok (success
                && negb (existsb (fun r => existsb (breaches fl) (issues r)) results)))
    /\ ((forall r, r ∈ results -> issues r = []) -> out = []).
Proof.
  induction results as [|r results IH]; intros success Hv; cbn [for_each existsb].
  - exists []. now rewrite andb_true_r.
  - apply Forall_cons in Hv as [Hr Hv].
    destruct (report_result_valid fl vl fmt success r Hr) as (o1 & E1 & N1).
    destruct (IH (success && negb (existsb (breaches fl) (issues r))) Hv)
      as (o2 & E2 & N2).
    exists (o1 ++ o2)%list. split.
    + etransitivity; [eapply bind_Ok; [exact E1 | exact E2]|].
      now rewrite negb_orb, andb_assoc.
    + intros Hn. rewrite N1, N2; [reflexivity | |].
      * intros r' Hr'. apply Hn. now right.
      * apply Hn. now left.
Qed.

Lemma breaches_spec fl i :
  breaches fl i = true <->
  exists lvl, issue_levels !! severity i = Some lvl /\ lvl <= fl.
Proof.
  unfold breaches. destruct (issue_levels !! severity i) as [lvl|]; split.
  - intros H%Z.leb_le. eauto.
  - intros (l & [= ->] & H). now apply Z.leb_le.
  - discriminate.
  - now intros (l & [=] & _).
Qed.

(** C1. The success flag is false exactly when some issue that survived the
    filtering has a level at or below the fail level.  A run that reaches
    the verdict then prints the error line and leaves with status 1; with
    the flag true it prints the line "All well" (between the colour codes of
    the formatter, which are empty without [--colorize]) and ends with
    status 0.  When no result holds an issue, which covers a report without
    outcomes, the flag is true and that line is all the run prints. *)
Theorem verdict_success_flag w options args t0 fl vl t results :
  parse_options options args = (t0, Ok (fl, vl)) ->
  gather w options args = (t, Ok results) ->
  exists out success,
    for_each (report_result fl vl (formatter_of options)) results true
      = (out, Ok success) /\
    (success = false <->
       exists r i lvl, r ∈ results /\ i ∈ issues r /\
         issue_levels !! severity i = Some lvl /\ lvl <= fl) /\
    main w options args
      = ((t0 ++ t ++ out ++
          [Print (if success then all_well (formatter_of options)
                  else errors_line (formatter_of options))])%list,
         if success then Ok tt else SysExit 1) /\
    exit_status (main w options args) = (if success then 0 else 1) /\
    ((forall r, r ∈ results -> issues r = []) ->
       success = true /\
       stdout (main w options args) = [all_well (formatter_of options)]) /\
    (opt_colorize options = false -> all_well (formatter_of options) = "All well").
Proof.
  intros Ho Hg. set (fmt := formatter_of options).
  destruct (report_results_valid fl vl fmt results true (gather_valid _ _ _ _ _ Hg))
    as (out & Hout & Hnil).
  simpl in Hout.
  set (success := negb (existsb (fun r => existsb (breaches fl) (issues r)) results))
    in *.
  assert (Hmain : main w options args
      = ((t0 ++ t ++ out ++
          [Print (if success then all_well fmt else errors_line fmt)])%list,
         if success then Ok tt else SysExit 1)).
  { unfold main. eapply bind_Ok; [exact Ho|]. cbn beta iota.
    eapply bind_Ok; [exact Hg|]. unfold verdict. fold fmt.
    eapply bind_Ok; [exact Hout|]. now destruct success. }
  assert (Hiff : success = false <->
       exists r i lvl, r ∈ results /\ i ∈ issues r /\
         issue_levels !! severity i = Some lvl /\ lvl <= fl).
  { unfold success. rewrite negb_false_iff, existsb_exists. split.
    - intros (r & Hr & (i & Hi & (lvl & E & L)%breaches_spec)%existsb_exists).
      exists r, i, lvl. rewrite !list_elem_of_In. auto.
    - intros (r & i & lvl & Hr & Hi & E & L). exists r.
      rewrite <- list_elem_of_In. split; [assumption|].
      apply existsb_exists. exists i. rewrite <- list_elem_of_In.
      split; [assumption|]. apply breaches_spec. eauto. }
  assert (Hnone : (forall r, r ∈ results -> issues r = []) -> success = true).
  { intros Hn. destruct (bool_decide (success = true)) eqn:D.
    - now apply bool_decide_eq_true in D.
    - apply bool_decide_eq_false, not_true_is_false in D.
      apply Hiff in D as (r & i & _ & Hr & Hi & _). rewrite (Hn r Hr) in Hi.
      now apply elem_of_nil in Hi. }
  clearbody success.
  exists out, success. repeat split; try assumption; try apply Hiff; auto.
  - rewrite Hmain. unfold exit_status. simpl. now destruct success.
  - pose proof (Hnone H) as S.
    rewrite Hmain, S. unfold stdout. simpl.
    assert (P0 : printed t0 = []).
    { revert Ho. clear. unfold parse_options, check_choice.
      destruct (existsb _ choices); [|discriminate]. rewrite bind_ret_l.
      destruct (existsb _ choices); [|discriminate]. rewrite bind_ret_l.
      destruct (negb _); [discriminate|]. rewrite bind_ret_l.
      unfold issue_level.
      destruct (issue_levels !! _); [|discriminate]. rewrite bind_ret_l.
      destruct (issue_levels !! _); [|discriminate]. rewrite bind_ret_l.
      destruct (_ >? _); [discriminate|]. rewrite bind_ret_l.
      now intros [= <- _ _]. }
    rewrite !printed_app, P0, (gather_silent _ _ _ _ _ Hg), (Hnil H). reflexivity.
  - intros C. unfold fmt, formatter_of. now rewrite C.
Qed.

(** The scenario of one checked resource without issues. *)
Lemma verdict_success_flag_witness :
  stdout (main (sample_world ∅ [outcome_of "a.xml" []]) default_options ["report.xml"])
  = ["All well"].
Proof.
  destruct (verdict_success_flag (sample_world ∅ [outcome_of "a.xml" []])
              default_options ["report.xml"] [] 1 3
              [ReadFile "report.xml"; ReadFile "a.xml"]
              [ {| file_path := "a.xml"; id := Some "a"; issues := [] |} ]
              eq_refl eq_refl)
    as (out & success & _ & _ & _ & _ & H & _).
  refine (proj2 (H _)). intros r Hr. apply list_elem_of_singleton in Hr. now subst r.
Defined.

(** ** The command line *)

Lemma issue_levels_Some s l :
  issue_levels !! s = Some l ->
  (s = "fatal" /\ l = 0) \/ (s = "error" /\ l = 1) \/
  (s = "warning" /\ l = 2) \/ (s = "information" /\ l = 3).
Proof.
  unfold issue_levels. intros H.
  apply lookup_insert_Some in H as [[<- <-]|[_ H]]; [tauto|].
  apply lookup_insert_Some in H as [[<- <-]|[_ H]]; [tauto|].
  apply lookup_insert_Some in H as [[<- <-]|[_ H]]; [tauto|].
  apply lookup_singleton_Some in H as [<- <-]. tauto.
Qed.

Lemma choice_cases v :
  existsb (String.eqb v) choices = true ->
  v = "error" \/ v = "warning" \/ v = "information".
Proof.
  simpl. rewrite !orb_true_iff, !String.eqb_eq. intuition discriminate.
Qed.

(** The command line is accepted with two levels in order, or refused with
    a usage message; the message about the levels is only given for levels
    out of order. *)
Lemma parse_options_cases options args :
  (exists fl vl,
      parse_options options args = ([], Ok (fl, vl)) /\
      issue_levels !! opt_fail_at options = Some fl /\
      issue_levels !! opt_verbosity_level options = Some vl /\
      fl <= vl /\ length args = 1%nat /\
      existsb (String.eqb (opt_fail_at options)) choices = true /\
      existsb (String.eqb (opt_verbosity_level options)) choices = true) \/
  (exists msg,
      parse_options options args = ([Usage msg], SysExit 2) /\
      (msg = silenced ->
       exists fl vl,
         issue_levels !! opt_fail_at options = Some fl /\
         issue_levels !! opt_verbosity_level options = Some vl /\ fl > vl /\
         length args = 1%nat)).
Proof.
  destruct options as [fa va c ig]. unfold parse_options, check_choice.
  cbn [opt_fail_at opt_verbosity_level].
  destruct (existsb (String.eqb fa) choices) eqn:Ef.
  2:{ right. eexists. split; [reflexivity | discriminate]. }
  destruct (existsb (String.eqb va) choices) eqn:Ev.
  2:{ right. eexists. split; [reflexivity | discriminate]. }
  destruct args as [|a [|b args]].
  1,3: right; eexists; split; [reflexivity | discriminate].
  apply choice_cases in Ef as [-> | [-> | ->]];
    apply choice_cases in Ev as [-> | [-> | ->]];
    first
      [ left; do 2 eexists; split; [reflexivity|];
        repeat split; try reflexivity; discriminate
      | right; eexists; split; [reflexivity|]; intros _;
        do 2 eexists; repeat split; reflexivity ].
Qed.

Lemma main_refused w options args t c :
  parse_options options args = (t, SysExit c) -> main w options args = (t, SysExit c).
Proof. intros H. unfold main. now rewrite H. Qed.

(** What an accepted command line leaves to be done obeys the discipline
    of the script: no usage message, no status but 1 through [sys.exit]. *)
Lemma main_accepted w options args t fl vl :
  parse_options options args = (t, Ok (fl, vl)) ->
  exists t' r, main w options args = ((t ++ t')%list, r) /\ obeys anything (t', r).
Proof.
  intros H. unfold main. rewrite H. cbn beta iota delta [bind].
  destruct (let* results := gather w options args
            in verdict fl vl (formatter_of options) results) as [t' r] eqn:E.
  exists t', r. split; [reflexivity|]. rewrite <- E.
  apply (obeys_bind anything anything_app).
  - now apply obeys_gather.
  - intros results. apply obeys_verdict.
Qed.

(** C9. When the level of [--fail-at] is greater than the level of
    [--verbosity-level] the command line is refused through [parser.error]
    and no file has been read: the run is one usage message and status 2.
    The message is the one about the levels when the command line is in
    order otherwise (both values among the choices, one argument).  When
    the levels are in order that message is never given. *)
Theorem threshold_check w options args fl vl :
  issue_levels !! opt_fail_at options = Some fl ->
  issue_levels !! opt_verbosity_level options = Some vl ->
  (fl > vl ->
     exists msg,
       main w options args = ([Usage msg], SysExit 2) /\
       files_read (main w options args) = [] /\
       (existsb (String.eqb (opt_fail_at options)) choices = true ->
        existsb (String.eqb (opt_verbosity_level options)) choices = true ->
        length args = 1%nat -> msg = silenced)) /\
  (fl <= vl -> Usage silenced ∉ fst (main w options args)).
Proof.
  intros Hf Hv. split.
  - intros Hgt.
    destruct (parse_options_cases options args)
      as [(a & b & _ & Ha & Hb & Hle & _)|(msg & Hp & _)].
    { rewrite Hf in Ha. rewrite Hv in Hb. injection Ha as <-. injection Hb as <-. lia. }
    exists msg. rewrite (main_refused _ _ _ _ _ Hp). repeat split.
    intros Cf Cv Hlen. revert Hp. unfold parse_options, check_choice.
    rewrite Cf, Cv, Hlen. rewrite !bind_ret_l. unfold issue_level.
    rewrite Hf, Hv, !bind_ret_l.
    destruct (fl >? vl) eqn:G; [now intros [= <-]|].
    rewrite Z.gtb_ltb in G. apply Z.ltb_ge in G. lia.
  - intros Hle.
    destruct (parse_options_cases options args)
      as [(a & b & Hp & _)|(msg & Hp & Hs)].
    + destruct (main_accepted w _ _ _ _ _ Hp) as (t' & r & -> & Hu & _). apply Hu.
    + rewrite (main_refused _ _ _ _ _ Hp). simpl.
      intros [= E]%list_elem_of_singleton.
      destruct (Hs (eq_sym E)) as (a & b & Ha & Hb & Hgt & _).
      rewrite Hf in Ha. rewrite Hv in Hb. injection Ha as <-. injection Hb as <-. lia.
Qed.

(** [--fail-at information --verbosity-level error] is refused; the default
    options are not. *)
Lemma threshold_check_witness :
  main (sample_world ∅ [])
    {| opt_fail_at := "information"; opt_verbosity_level := "error";
       opt_colorize := false; opt_ignored_issues := None |} ["report.xml"]
  = ([Usage silenced], SysExit 2).
Proof.
  destruct (threshold_check (sample_world ∅ [])
              {| opt_fail_at := "information"; opt_verbosity_level := "error";
                 opt_colorize := false; opt_ignored_issues := None |}
              ["report.xml"] 3 1 eq_refl eq_refl) as [H _].
  destruct (H ltac:(lia)) as (msg & Hm & _ & Hs).
  rewrite <- (Hs eq_refl eq_refl eq_refl). exact Hm.
Defined.

(** C8 as stated fails on a command line without argument: optparse leaves
    with status 2, not 1. *)
Lemma wrong_argument_count_status :
  main (sample_world ∅ []) default_options [] =
    ([Usage "Exactly one argument expected"], SysExit 2) /\
  exit_status (main (sample_world ∅ []) default_options []) <> 1.
Proof. split; [reflexivity | discriminate]. Qed.

(** C8, amended. A command line that [parse_args] and the two checks accept
    gives status 0 when the script runs to its end and status 1 otherwise
    (an issue at or below the fail level, a rule that no issue used, a
    matching rule without reason, an uncaught exception); a command line
    that is refused gives status 2.  It is accepted when both levels are
    among the choices, there is one argument and the fail level is not
    greater than the verbosity level. *)
Theorem exit_status_cases w options args :
  exit_status (main w options args) =
    match snd (parse_options options args), snd (main w options args) with
    | Ok _, Ok _ => 0
    | Ok _, _ => 1
    | _, _ => 2
    end /\
  ((exists th, snd (parse_options options args) = Ok th) <->
   existsb (String.eqb (opt_fail_at options)) choices = true /\
   existsb (String.eqb (opt_verbosity_level options)) choices = true /\
   length args = 1%nat /\
   exists fl vl, issue_levels !! opt_fail_at options = Some fl /\
                 issue_levels !! opt_verbosity_level options = Some vl /\ fl <= vl).
Proof.
  split.
  - destruct (parse_options_cases options args)
      as [(a & b & Hp & _)|(msg & Hp & _)].
    + destruct (main_accepted w _ _ _ _ _ Hp) as (t' & r & Hm & _ & Hr).
      rewrite Hp, Hm. unfold exit_status. simpl in *. now destruct r.
    + rewrite (main_refused _ _ _ _ _ Hp), Hp. reflexivity.
  - split.
    + intros [th Hth].
      destruct (parse_options_cases options args)
        as [(a & b & Hp & Ha & Hb & Hle & Hlen & Cf & Cv)|(msg & Hp & _)].
      * repeat split; try assumption. now exists a, b.
      * rewrite Hp in Hth. discriminate.
    + intros (Cf & Cv & Hlen & fl & vl & Hf & Hv & Hle).
      unfold parse_options, check_choice, issue_level.
      rewrite Cf, Cv, Hlen, Hf, Hv, !bind_ret_l.
      destruct (fl >? vl) eqn:G.
      * rewrite Z.gtb_ltb in G. apply Z.ltb_lt in G. lia.
      * now exists (fl, vl).
Qed.

Lemma exit_status_cases_witness :
  exit_status (main (sample_world ∅ [outcome_of "a.xml" []]) default_options
                 ["report.xml"]) = 0.
Proof.
  rewrite (proj1 (exit_status_cases (sample_world ∅ [outcome_of "a.xml" []])
                    default_options ["report.xml"])).
  reflexivity.
Defined.

(** A report without outcome. *)
Example status_of_empty_report :
  main (sample_world ∅ []) default_options ["report.xml"]
  = ([ReadFile "report.xml"; Print "All well"], Ok tt).
Proof. reflexivity. Qed.

(** The failures of an accepted command line, one of each kind. *)
Example status_of_breach :
  exit_status (main (sample_world ∅ [outcome_of "a.xml" [sample_issue "error" "Bad" "Patient"]])
                 default_options ["report.xml"]) = 1.
Proof. reflexivity. Qed.

Example status_of_unreadable_report :
  main (sample_world ∅ []) default_options ["other.xml"]
  = ([ReadFile "other.xml"], Raised (FileError "other.xml")) /\
  exit_status (main (sample_world ∅ []) default_options ["other.xml"]) = 1.
Proof. split; reflexivity. Qed.

Example status_of_stale_rule :
  exit_status
    (main (sample_world {[ Some "a" := Some [("Patient", [sample_rule (Some "Bad") (Some "known")])] ]}
             [outcome_of "a.xml" []])
       known_options ["report.xml"]) = 1.
Proof. reflexivity. Qed.

(** ** The fields of an issue *)

(** C7 as stated fails: with a line but no column in the report, the line
    is replaced by "?" too. *)
Lemma line_lost_with_col :
  extract_fields {| x_text := Absent; x_line := Value "12"; x_col := Absent;
                    x_severity := Value "error"; x_expression := Absent |}
  = ([], Ok {| line := "?"; col := "?"; severity := "error";
               text := "_No description_"; expression := "" |}).
Proof. reflexivity. Qed.

(** C7, amended. An optional element that is missing raises no error: the
    text becomes "_No description_", the expression the empty string, and
    the line and the column are both "?" as soon as one of the two is
    missing; elements that are there give their value. *)
Theorem optional_fields_default issue sev :
  x_severity issue = Value sev ->
  x_text issue <> NoValue -> x_line issue <> NoValue ->
  x_col issue <> NoValue -> x_expression issue <> NoValue ->
  exists f,
    extract_fields issue = ([], Ok f) /\ severity f = sev /\
    text f = match x_text issue with Value v => v | _ => "_No description_" end /\
    expression f = match x_expression issue with Value v => v | _ => "" end /\
    (line f, col f) = match x_line issue, x_col issue with
                      | Value l, Value c => (l, c)
                      | _, _ => ("?", "?")
                      end.
Proof.
  destruct issue as [xt xl xc xs xe]. simpl. intros -> Ht Hl Hc He.
  destruct xt, xl, xc, xe; try contradiction;
    eexists; (split; [reflexivity|]); simpl; auto.
Qed.

Lemma optional_fields_default_witness :
  exists f,
    extract_fields {| x_text := Absent; x_line := Absent; x_col := Value "7";
                      x_severity := Value "warning"; x_expression := Absent |}
    = ([], Ok f) /\
    text f = "_No description_" /\ expression f = "" /\ (line f, col f) = ("?", "?").
Proof.
  destruct (optional_fields_default
              {| x_text := Absent; x_line := Absent; x_col := Value "7";
                 x_severity := Value "warning"; x_expression := Absent |}
              "warning" eq_refl) as (f & H & _ & Ht & He & Hl); try discriminate.
  exists f. auto.
Defined.

(** ** The loop over the rules of an expression *)

Lemma match_known_issues_spec rid e txt known : forall ig,
  match_known_issues rid e txt known ig =
  if existsb (unjustified txt) known
  then ([Print (no_reason_line rid e)], SysExit 1)
  else ([], Ok (ig || existsb (matches txt) known, map (mark txt) known)).
Proof.
  induction known as [|k known IH]; intros ig; cbn [match_known_issues existsb map].
  - now rewrite orb_false_r.
  - assert (M : matches txt k = match message k with
                                | Some m => String.prefix m txt
                                | None => false
                                end) by reflexivity.
    unfold unjustified at 1, mark at 1. rewrite M. clear M.
    destruct (message k) as [m|]; [destruct (String.prefix m txt)|];
      [destruct (reason k); [|reflexivity] | |];
      rewrite bind_ret_l, IH; cbn [andb orb];
      (destruct (existsb (unjustified txt) known); [reflexivity|]);
      cbn [bind ret app]; rewrite ?orb_true_r; reflexivity.
Qed.

(** C3 as stated fails: two rules whose messages both start the text are
    both marked by the one issue. *)
Lemma later_match_marked_too :
  match_known_issues (Some "a") "Patient.name" "Bad thing"
    [sample_rule (Some "Bad") (Some "known");
     sample_rule (Some "Bad thing") (Some "known too")] false
  = ([], Ok (true, [ {| message := Some "Bad"; reason := Some "known";
                        processed := true |};
                     {| message := Some "Bad thing"; reason := Some "known too";
                        processed := true |} ])).
Proof. reflexivity. Qed.

(** C3, amended. When every rule that matches the text gives a reason,
    the loop runs over all the rules of the expression: each rule whose
    message starts the text is marked, the others are left as they are, and
    the issue is ignored when at least one rule matched. *)
Theorem every_match_marked rid e txt known :
  (forall k, k ∈ known -> matches txt k = true -> is_Some (reason k)) ->
  match_known_issues rid e txt known false
  = ([], Ok (existsb (matches txt) known, map (mark txt) known)) /\
  (forall k, k ∈ known ->
     if matches txt k then set_processed k ∈ map (mark txt) known
     else k ∈ map (mark txt) known).
Proof.
  intros Hr. split.
  - rewrite match_known_issues_spec.
    destruct (existsb (unjustified txt) known) eqn:U; [|reflexivity].
    apply existsb_exists in U as (k & Hk%list_elem_of_In & U).
    unfold unjustified in U. apply andb_true_iff in U as [M R].
    destruct (Hr k Hk M) as [r Hreason]. rewrite Hreason in R. discriminate.
  - intros k Hk. destruct (matches txt k) eqn:M.
    + apply list_elem_of_fmap. exists k. unfold mark. now rewrite M.
    + apply list_elem_of_fmap. exists k. unfold mark. now rewrite M.
Qed.

Lemma every_match_marked_witness :
  match_known_issues (Some "a") "Patient.name" "Bad thing"
    [sample_rule (Some "Bad") (Some "known"); sample_rule (Some "Worse") None;
     sample_rule (Some "Bad thing") (Some "known too")] false
  = ([], Ok (true, [set_processed (sample_rule (Some "Bad") (Some "known"));
                    sample_rule (Some "Worse") None;
                    set_processed (sample_rule (Some "Bad thing") (Some "known too"))])).
Proof.
  refine (proj1 (every_match_marked (Some "a") "Patient.name" "Bad thing" _ _)).
  intros k Hk. repeat (apply elem_of_cons in Hk as [->|Hk]); simpl;
    [eauto | discriminate | eauto | now apply elem_of_nil in Hk].
Defined.

(** ** Where the walk stops *)

Lemma bind_stopped {A B} (m : run A) (f : A -> run B) t s :
  m = (t, stopped s) -> bind m f = (t, stopped s).
Proof. intros ->. now destruct s. Qed.

Lemma for_each_stopped {S X} (body : S -> X -> run S) pre x post s t1 s1 t2 st :
  for_each body pre s = (t1, Ok s1) ->
  body s1 x = (t2, stopped st) ->
  for_each body (pre ++ x :: post)%list s = ((t1 ++ t2)%list, stopped st).
Proof.
  intros Hpre Hx. apply (for_each_stops body pre x post s t1 s1 t2 _ Hpre Hx).
  now destruct st.
Qed.

Lemma walk_stopped w ign opre outcome opost t1 ign1 rs1 t2 st :
  for_each (process_outcome w) opre (ign, []) = (t1, Ok (ign1, rs1)) ->
  process_outcome w (ign1, rs1) outcome = (t2, stopped st) ->
  walk w ign (opre ++ outcome :: opost) = ((t1 ++ t2)%list, stopped st).
Proof.
  intros Hpre Ho. unfold walk. apply bind_stopped.
  now apply (for_each_stopped _ _ _ _ _ _ _ _ _ Hpre).
Qed.

(** The walk stops inside an outcome where the treatment of one of its
    issues stops. *)
Lemma walk_stops_at_issue w ign opre outcome opost t1 ign1 rs1 p t2 r0
    ipre issue ipost t3 curr result t4 st :
  for_each (process_outcome w) opre (ign, []) = (t1, Ok (ign1, rs1)) ->
  x_file outcome = Value p ->
  new_Result w p = (t2, Ok r0) ->
  x_issues outcome = (ipre ++ issue :: ipost)%list ->
  for_each (process_issue (length (x_issues outcome))) ipre
    (current_ignored ign1 (id r0), r0) = (t3, Ok (curr, result)) ->
  process_issue (length (x_issues outcome)) (curr, result) issue = (t4, stopped st) ->
  walk w ign (opre ++ outcome :: opost)
  = ((t1 ++ t2 ++ t3 ++ t4)%list, stopped st).
Proof.
  intros Hpre Hfile Hres Hiss Hipre Hissue.
  apply (walk_stopped _ _ _ _ _ _ _ _ _ _ Hpre).
  unfold process_outcome. apply bind_stopped. unfold scan_outcome.
  rewrite Hfile. cbn [attrib_value]. rewrite bind_ret_l.
  eapply bind_Ok; [exact Hres|]. cbn beta.
  rewrite Hiss at 2.
  now apply (for_each_stopped _ _ _ _ _ _ _ _ _ Hipre).
Qed.

Lemma process_issue_same n curr r issue t curr' r' :
  process_issue n (curr, r) issue = (t, Ok (curr', r')) ->
  id r' = id r /\ file_path r' = file_path r.
Proof.
  intros (f & [] & _ & _ & Ht & Hf)%process_issue_Ok.
  - now rewrite (Ht eq_refl).
  - now destruct (Hf eq_refl) as [_ ->].
Qed.

Lemma process_issues_same n issues : forall curr r t curr' r',
  for_each (process_issue n) issues (curr, r) = (t, Ok (curr', r')) ->
  id r' = id r /\ file_path r' = file_path r.
Proof.
  intros curr r t curr' r' H.
  refine (for_each_invariant
            (fun st => id (snd st) = id r /\ file_path (snd st) = file_path r)
            _ _ _ (curr, r) _ (curr', r') _ H); [|now split].
  intros [c1 r1] x t' [c2 r2] [Hi Hp] Hx. simpl in *.
  apply process_issue_same in Hx as [-> ->]. now split.
Qed.

(** ** The filtering of one issue *)

Lemma process_issue_fields n curr result issue f :
  extract_fields issue = ([], Ok f) ->
  process_issue n (curr, result) issue =
  let* '(issue_ignored, curr_ignored_issues) :=
    check_ignored (id result) n curr f in
  if negb issue_ignored then
    let* result := addIssue result (line f) (col f) (severity f) (text f)
                     (expression f) in
    ret (curr_ignored_issues, result)
  else ret (curr_ignored_issues, result).
Proof. intros H. unfold process_issue. rewrite H. apply (bind_ret_l f). Qed.




(** C5 as stated fails: an issue with an unknown severity that a rule
    matches is dropped, and the run ends well. *)
Lemma unknown_severity_suppressed :
  main (sample_world
          {[ Some "a" := Some [("Patient", [sample_rule (Some "Bad") (Some "known")])] ]}
          [outcome_of "a.xml" [sample_issue "bogus" "Bad thing" "Patient"]])
    known_options ["report.xml"]
  = ([ReadFile "known.yaml"; ReadFile "report.xml"; ReadFile "a.xml";
      Print "All well"], Ok tt).
Proof. reflexivity. Qed.

(** C5, amended. The severity is checked by [addIssue], that is for the
    issues that are not ignored: when the walk comes to an issue that no
    rule and no marker rule ignores and whose severity is not a key of
    [issue_levels], the exception that names the severity and the path of
    the resource stops the run with status 1.  An issue that is ignored is
    left out whatever its severity. *)
Theorem unknown_severity_raises w ign opre outcome opost t1 ign1 rs1 p t2 r0
    ipre issue ipost t3 curr result f t4 curr' :
  for_each (process_outcome w) opre (ign, []) = (t1, Ok (ign1, rs1)) ->
  x_file outcome = Value p ->
  new_Result w p = (t2, Ok r0) ->
  x_issues outcome = (ipre ++ issue :: ipost)%list ->
  for_each (process_issue (length (x_issues outcome))) ipre
    (current_ignored ign1 (id r0), r0) = (t3, Ok (curr, result)) ->
  extract_fields issue = ([], Ok f) ->
  issue_levels !! severity f = None ->
  (check_ignored (id result) (length (x_issues outcome)) curr f
     = (t4, Ok (false, curr')) ->
   process_issue (length (x_issues outcome)) (curr, result) issue
     = (t4, Raised (Exception (unknown_severity_message (severity f) p))) /\
   walk w ign (opre ++ outcome :: opost)
     = ((t1 ++ t2 ++ t3 ++ t4)%list,
        Raised (Exception (unknown_severity_message (severity f) p))) /\
   exit_status (walk w ign (opre ++ outcome :: opost)) = 1) /\
  (check_ignored (id result) (length (x_issues outcome)) curr f
     = (t4, Ok (true, curr')) ->
   process_issue (length (x_issues outcome)) (curr, result) issue
     = (t4, Ok (curr', result))).
Proof.
  intros Hpre Hfile Hres Hiss Hipre Hf Hsev.
  rewrite (process_issue_fields _ _ _ _ _ Hf). split; intros Hc; rewrite Hc.
  - assert (Hp : file_path result = p).
    { apply process_issues_same in Hipre as [_ ->].
      now apply new_Result_Ok in Hres as (_ & -> & _). }
    assert (Hissue : process_issue (length (x_issues outcome)) (curr, result) issue
              = (t4, stopped (Uncaught (Exception (unknown_severity_message (severity f) p))))).
    { rewrite (process_issue_fields _ _ _ _ _ Hf), Hc. cbn [bind negb].
      unfold addIssue. rewrite Hsev, Hp. cbn. now rewrite app_nil_r. }
    pose proof (walk_stops_at_issue _ _ _ _ opost _ _ _ _ _ _ _ _ _ _ _ _ _ _
                  Hpre Hfile Hres Hiss Hipre Hissue) as Hw.
    rewrite (process_issue_fields _ _ _ _ _ Hf), Hc in Hissue.
    repeat split; [exact Hissue | exact Hw | now rewrite Hw].
  - cbn. now rewrite app_nil_r.
Qed.

Lemma unknown_severity_raises_witness :
  walk (sample_world ∅ []) ∅
    [outcome_of "a.xml" [sample_issue "bogus" "Bad thing" "Patient"]]
  = ([ReadFile "a.xml"],
     Raised (Exception "Unknown severity 'bogus' when validating file a.xml")).
Proof.
  refine (proj1 (proj2 (proj1
    (unknown_severity_raises (sample_world ∅ []) ∅ []
       (outcome_of "a.xml" [sample_issue "bogus" "Bad thing" "Patient"]) []
       [] ∅ [] "a.xml" [ReadFile "a.xml"]
       {| file_path := "a.xml"; id := Some "a"; issues := [] |}
       [] (sample_issue "bogus" "Bad thing" "Patient") [] []
       [] {| file_path := "a.xml"; id := Some "a"; issues := [] |}
       {| line := "3"; col := "7"; severity := "bogus"; text := "Bad thing";
          expression := "Patient" |} [] []
       eq_refl eq_refl eq_refl eq_refl eq_refl eq_refl eq_refl) eq_refl))).
Defined.

Lemma addIssue_no_exit r l c s txt e t code :
  addIssue r l c s txt e <> (t, SysExit code).
Proof. unfold addIssue. now destruct (issue_levels !! s). Qed.

Lemma keep_or_drop_no_exit (ig : bool) curr result f t code :
  (if negb ig then
     let* result := addIssue result (line f) (col f) (severity f) (text f)
                      (expression f) in
     ret (curr, result)
   else ret (curr, result)) <> (t, SysExit code :> status (ignored_map * Result)).
Proof.
  destruct ig; cbn [negb]; [discriminate|].
  unfold addIssue. now destruct (issue_levels !! severity f).
Qed.

(** C6. An issue whose text starts with the message of a rule registered
    for its resource and expression, the rule giving no reason, makes the
    treatment of the issue print the line that names the resource id and
    the expression and leave with status 1; that line and that exit come
    from nothing else.  The walk stops there: the issues and outcomes that
    follow in the report are not looked at. *)
Theorem missing_reason_stops w ign opre outcome opost t1 ign1 rs1 p t2 r0
    ipre issue ipost t3 curr result f :
  for_each (process_outcome w) opre (ign, []) = (t1, Ok (ign1, rs1)) ->
  x_file outcome = Value p ->
  new_Result w p = (t2, Ok r0) ->
  x_issues outcome = (ipre ++ issue :: ipost)%list ->
  for_each (process_issue (length (x_issues outcome))) ipre
    (current_ignored ign1 (id r0), r0) = (t3, Ok (curr, result)) ->
  extract_fields issue = ([], Ok f) ->
  ((exists known k,
       dict_get (expression f) curr = Some known /\ k ∈ known /\
       matches (text f) k = true /\ reason k = None) <->
   process_issue (length (x_issues outcome)) (curr, result) issue
   = ([Print (no_reason_line (id result) (expression f))], SysExit 1)) /\
  ((exists known k,
       dict_get (expression f) curr = Some known /\ k ∈ known /\
       matches (text f) k = true /\ reason k = None) ->
   walk w ign (opre ++ outcome :: opost)
   = ((t1 ++ t2 ++ t3 ++ [Print (no_reason_line (id result) (expression f))])%list,
      SysExit 1) /\
   exit_status (walk w ign (opre ++ outcome :: opost)) = 1).
Proof.
  intros Hpre Hfile Hres Hiss Hipre Hf.
  assert (Hiff : (exists known k,
       dict_get (expression f) curr = Some known /\ k ∈ known /\
       matches (text f) k = true /\ reason k = None) <->
   process_issue (length (x_issues outcome)) (curr, result) issue
   = ([Print (no_reason_line (id result) (expression f))], SysExit 1)).
  { rewrite (process_issue_fields _ _ _ _ _ Hf). unfold check_ignored.
    destruct (dict_get (expression f) curr) as [known|].
    - rewrite match_known_issues_spec.
      destruct (existsb (unjustified (text f)) known) eqn:U.
      + split; [reflexivity|]. intros _.
        apply existsb_exists in U as (k & Hk%list_elem_of_In & U).
        unfold unjustified in U. apply andb_true_iff in U as [M R].
        exists known, k. repeat split; try assumption. now destruct (reason k).
      + split.
        * intros (known' & k & [= <-] & Hk & M & R). exfalso.
          apply not_true_iff_false in U. apply U, existsb_exists.
          exists k. rewrite <- list_elem_of_In. split; [assumption|].
          unfold unjustified. now rewrite M, R.
        * cbn [bind ret app].
          destruct (if negb _ then _ else _) as [t' r] eqn:E.
          intros [= -> ->]. now apply keep_or_drop_no_exit in E.
    - split; [now intros (known & k & [=] & _)|].
      destruct (_ && _); rewrite bind_ret_l; intros H;
        now apply keep_or_drop_no_exit in H. }
  split; [exact Hiff|]. intros Hex. apply Hiff in Hex.
  pose proof (walk_stops_at_issue _ _ _ _ opost _ _ _ _ _ _ _ _ _ _ _ _ _
                (Exited 1) Hpre Hfile Hres Hiss Hipre Hex) as Hw.
  split; [exact Hw | now rewrite Hw].
Qed.

(** The rule for "Patient" gives no reason; the issue before the matching
    one is kept, the issue and the outcome after it are never reached. *)
Lemma missing_reason_stops_witness :
  walk (sample_world
          {[ Some "a" := Some [("Patient", [sample_rule (Some "Bad") None])] ]} [])
    {[ Some "a" := Some [("Patient", [sample_rule (Some "Bad") None])] ]}
    [outcome_of "a.xml" [sample_issue "warning" "Odd" "Patient.name";
                         sample_issue "error" "Bad thing" "Patient";
                         sample_issue "bogus" "Worse" "Patient"];
     outcome_of "missing.xml" []]
  = ([ReadFile "a.xml";
      Print "Issue at a/Patient ignored without providing a reason"], SysExit 1).
Proof.
  refine (proj1 (proj2
    (missing_reason_stops
       (sample_world
          {[ Some "a" := Some [("Patient", [sample_rule (Some "Bad") None])] ]} [])
       {[ Some "a" := Some [("Patient", [sample_rule (Some "Bad") None])] ]}
       []
       (outcome_of "a.xml" [sample_issue "warning" "Odd" "Patient.name";
                            sample_issue "error" "Bad thing" "Patient";
                            sample_issue "bogus" "Worse" "Patient"])
       [outcome_of "missing.xml" []]
       [] _ [] "a.xml" [ReadFile "a.xml"]
       {| file_path := "a.xml"; id := Some "a"; issues := [] |}
       [sample_issue "warning" "Odd" "Patient.name"]
       (sample_issue "error" "Bad thing" "Patient")
       [sample_issue "bogus" "Worse" "Patient"]
       []
       [("Patient", [sample_rule (Some "Bad") None])]
       {| file_path := "a.xml"; id := Some "a";
          issues := [Build_Issue "3" "7" "warning" "Odd" "Patient.name"] |}
       {| line := "3"; col := "7"; severity := "error"; text := "Bad thing";
          expression := "Patient" |}
       eq_refl eq_refl eq_refl eq_refl eq_refl eq_refl) _)).
  exists [sample_rule (Some "Bad") None], (sample_rule (Some "Bad") None).
  repeat split. apply list_elem_of_singleton. reflexivity.
Defined.

(** ** Rules that no issue used *)

Lemma walk_loop_silent w outcomes st t st' :
  for_each (process_outcome w) outcomes st = (t, Ok st') -> printed t = [].
Proof.
  intros H.
  destruct (obeys_for_each silent silent_nil silent_app (process_outcome w)
              outcomes st) as [_ Hq].
  { intros s x.
    apply (obeys_process_outcome silent silent_nil silent_app (fun _ => eq_refl)). }
  rewrite H in Hq. exact Hq.
Qed.

Lemma scan_outcome_silent w ign outcome t r :
  scan_outcome w ign outcome = (t, Ok r) -> printed t = [].
Proof.
  intros H.
  destruct (obeys_scan_outcome silent silent_nil silent_app (fun _ => eq_refl)
              w ign outcome) as [_ Hq].
  rewrite H in Hq. exact Hq.
Qed.

Lemma process_outcome_stale w ign rs outcome t curr result e known :
  scan_outcome w ign outcome = (t, Ok (curr, result)) ->
  first_stale curr = Some (e, known) ->
  process_outcome w (ign, rs) outcome
  = ((t ++ [Print (stale_line (id result) e)])%list, stopped (Exited 1)).
Proof.
  intros Hs Hf. unfold process_outcome. eapply bind_Ok; [exact Hs|].
  cbn beta iota. rewrite check_processed_spec. fold (first_stale curr).
  now rewrite Hf.
Qed.

(** C2 as stated fails: the resources "a" and "b" both have a rule that no
    issue used; the run stops at the first, never opens the file of the
    second and does not report its rule. *)
Lemma only_first_stale_reported :
  main (sample_world two_stale_rules [outcome_of "a.xml" []; outcome_of "b.xml" []])
    known_options ["report.xml"]
  = ([ReadFile "known.yaml"; ReadFile "report.xml"; ReadFile "a.xml";
      Print (stale_line (Some "a") "Patient")], SysExit 1) /\
  stale_line (Some "b") "Observation"
  ∉ stdout (main (sample_world two_stale_rules
                    [outcome_of "a.xml" []; outcome_of "b.xml" []])
              known_options ["report.xml"]).
Proof.
  split; [reflexivity|].
  intros H. apply list_elem_of_singleton in H. discriminate.
Qed.

(** C2, amended. When the issues of an outcome have been filtered and a
    rule of its resource is still not marked, the script prints one line,
    which names the resource id and the first expression (in the order of
    the file of known issues) that has such a rule, and leaves at once with
    status 1: the outcomes that follow are not scanned, whatever they are,
    and the rules of other resources are not reported. *)
Theorem stale_rule_stops w ign opre outcome opost t1 ign1 rs1 t2 curr result :
  for_each (process_outcome w) opre (ign, []) = (t1, Ok (ign1, rs1)) ->
  scan_outcome w ign1 outcome = (t2, Ok (curr, result)) ->
  (exists e known k, (e, known) ∈ curr /\ k ∈ known /\ processed k = false) ->
  exists e known k,
    first_stale curr = Some (e, known) /\
    (e, known) ∈ curr /\ k ∈ known /\ processed k = false /\
    walk w ign (opre ++ outcome :: opost)
    = ((t1 ++ t2 ++ [Print (stale_line (id result) e)])%list, SysExit 1) /\
    stdout (walk w ign (opre ++ outcome :: opost)) = [stale_line (id result) e] /\
    exit_status (walk w ign (opre ++ outcome :: opost)) = 1.
Proof.
  intros Hpre Hs (e0 & known0 & k0 & He0 & Hk0 & Hp0).
  destruct (unprocessed_found curr e0 known0 k0 He0 Hk0 Hp0)
    as (e & known & k & Hfind & He & Hk & Hp).
  exists e, known, k.
  pose proof (walk_stopped w ign opre outcome opost _ _ _ _ _ Hpre
                (process_outcome_stale _ _ rs1 _ _ _ _ _ _ Hs Hfind)) as Hw.
  cbn [stopped] in Hw.
  repeat split; try assumption.
  - rewrite Hw. unfold stdout. cbn [fst]. rewrite !printed_app.
    now rewrite (walk_loop_silent _ _ _ _ _ Hpre), (scan_outcome_silent _ _ _ _ _ Hs).
  - now rewrite Hw.
Qed.

Lemma stale_rule_stops_witness :
  walk (sample_world two_stale_rules []) two_stale_rules
    [outcome_of "anon.xml" [sample_issue "warning" "Odd" "Patient"];
     outcome_of "a.xml" []; outcome_of "b.xml" []]
  = ([ReadFile "anon.xml"; ReadFile "a.xml";
      Print (stale_line (Some "a") "Patient")], SysExit 1).
Proof.
  destruct (stale_rule_stops (sample_world two_stale_rules []) two_stale_rules
              [outcome_of "anon.xml" [sample_issue "warning" "Odd" "Patient"]]
              (outcome_of "a.xml" []) [outcome_of "b.xml" []]
              [ReadFile "anon.xml"] two_stale_rules
              [ {| file_path := "anon.xml"; id := None;
                   issues := [Build_Issue "3" "7" "warning" "Odd" "Patient"] |} ]
              [ReadFile "a.xml"]
              [("Patient", [sample_rule (Some "Bad") (Some "known")])]
              {| file_path := "a.xml"; id := Some "a"; issues := [] |}
              eq_refl eq_refl)
    as (e & known & k & Hf & _ & _ & _ & Hw & _).
  - exists "Patient", [sample_rule (Some "Bad") (Some "known")],
      (sample_rule (Some "Bad") (Some "known")).
    repeat split; apply list_elem_of_singleton; reflexivity.
  - injection Hf as <- _. exact Hw.
Defined.

(** ** Rules without message *)

Lemma no_message_mark txt k : message k = None -> mark txt k = k.
Proof. intros H. unfold mark, matches. now rewrite H. Qed.

Lemma dict_replace_keeps {V} x (v0 v : V) d e known :
  dict_get x d = Some v0 -> (e, known) ∈ d ->
  (e, known) ∈ dict_replace x v d \/ (known = v0 /\ (e, v) ∈ dict_replace x v d).
Proof.
  induction d as [|[k' v'] d IH]; cbn [dict_get dict_replace]; [discriminate|].
  destruct (x =? k')%string.
  - intros [= ->] [[= -> ->]|Hin]%elem_of_cons.
    + right. split; [reflexivity | now left].
    + left. now right.
  - intros Hg [[= -> ->]|Hin]%elem_of_cons.
    + left. now left.
    + destruct (IH Hg Hin) as [H|[-> H]]; [left | right; split; [reflexivity|]];
        now right.
Qed.

Lemma check_ignored_keeps rid n curr f t ig curr' e k :
  message k = None ->
  (exists known, (e, known) ∈ curr /\ k ∈ known) ->
  check_ignored rid n curr f = (t, Ok (ig, curr')) ->
  exists known', (e, known') ∈ curr' /\ k ∈ known'.
Proof.
  intros Hm (known & He & Hk). unfold check_ignored.
  destruct (dict_get (expression f) curr) as [known0|] eqn:D.
  - rewrite match_known_issues_spec.
    destruct (existsb (unjustified (text f)) known0); [discriminate|].
    cbn [bind ret app]. intros [= <- <- <-].
    destruct (dict_replace_keeps _ _ (map (mark (text f)) known0) _ _ _ D He)
      as [H|[-> H]].
    + now exists known.
    + eexists. split; [exact H|]. apply list_elem_of_fmap. exists k.
      now rewrite no_message_mark.
  - destruct (_ && _); intros [= <- <- <-]; now exists known.
Qed.

Lemma process_issues_keep n issues e k : forall curr r t curr' r',
  message k = None ->
  (exists known, (e, known) ∈ curr /\ k ∈ known) ->
  for_each (process_issue n) issues (curr, r) = (t, Ok (curr', r')) ->
  exists known', (e, known') ∈ curr' /\ k ∈ known'.
Proof.
  intros curr r t curr' r' Hm Hin H.
  refine (for_each_invariant
            (fun st => exists known, (e, known) ∈ fst st /\ k ∈ known)
            _ _ _ (curr, r) _ (curr', r') Hin H).
  intros [c1 r1] x t' [c2 r2] Hc Hx. simpl in *.
  apply process_issue_Ok in Hx as (f & ig & _ & Hx & _).
  eapply check_ignored_keeps; eassumption.
Qed.

Lemma scan_outcome_Ok w ign outcome t curr result :
  scan_outcome w ign outcome = (t, Ok (curr, result)) ->
  exists p t0 r0 t1,
    x_file outcome = Value p /\ new_Result w p = (t0, Ok r0) /\
    for_each (process_issue (length (x_issues outcome))) (x_issues outcome)
      (current_ignored ign (id r0), r0) = (t1, Ok (curr, result)) /\
    id result = id r0.
Proof.
  unfold scan_outcome. intros H.
  apply bind_Ok_inv in H as (t1 & p & t2 & Hp & H & ->).
  apply bind_Ok_inv in H as (t3 & r0 & t4 & Hr & H & ->).
  exists p, t3, r0, t4. repeat split; try assumption.
  - destruct (x_file outcome); try discriminate. now injection Hp as _ <-.
  - now apply process_issues_same in H as [-> _].
Qed.

Lemma scan_outcome_keeps w ign outcome t curr result e k :
  message k = None ->
  has_rule ign (id result) e k ->
  scan_outcome w ign outcome = (t, Ok (curr, result)) ->
  exists known, (e, known) ∈ curr /\ k ∈ known.
Proof.
  intros Hm (m & known & Hl & He & Hk) Hs.
  apply scan_outcome_Ok in Hs as (p & t0 & r0 & t1 & _ & _ & Hloop & Hid).
  rewrite Hid in Hl. unfold current_ignored in Hloop. rewrite Hl in Hloop.
  eapply process_issues_keep; [exact Hm | | exact Hloop]. now exists known.
Qed.

(** A rule without message that is not marked stops the walk at the
    outcome of its resource; elsewhere it stays as it is. *)
Lemma process_outcome_keeps w ign rs outcome t ign' rs' rid e k :
  message k = None -> processed k = false ->
  has_rule ign rid e k ->
  process_outcome w (ign, rs) outcome = (t, Ok (ign', rs')) ->
  has_rule ign' rid e k.
Proof.
  intros Hm Hp Hr H.
  apply process_outcome_Ok in H as (curr & r & Hs & Hc & -> & _).
  destruct (decide (id r = rid)) as [<-|Hne].
  - exfalso. destruct (scan_outcome_keeps _ _ _ _ _ _ _ _ Hm Hr Hs)
      as (known & He & Hk).
    destruct (unprocessed_found curr e known k He Hk Hp) as (e' & kn' & k' & F & _).
    rewrite check_processed_spec, F in Hc. discriminate.
  - destruct Hr as (m & known & Hl & He & Hk). exists m, known.
    repeat split; try assumption. unfold write_back.
    destruct (ign !! id r) as [[m'|]|]; try assumption.
    unfold store in *. now rewrite lookup_insert_ne.
Qed.

Lemma walk_loop_keeps w outcomes rid e k : forall ign rs t ign' rs',
  message k = None -> processed k = false ->
  has_rule ign rid e k ->
  for_each (process_outcome w) outcomes (ign, rs) = (t, Ok (ign', rs')) ->
  has_rule ign' rid e k.
Proof.
  intros ign rs t ign' rs' Hm Hp Hr H.
  refine (for_each_invariant (fun st => has_rule (fst st) rid e k)
            _ _ _ (ign, rs) _ (ign', rs') Hr H).
  intros [i1 r1] x t' [i2 r2] Hh Hx. simpl in *.
  eapply process_outcome_keeps; eassumption.
Qed.

Lemma scan_outcome_finds_stale w ign outcome t curr result e k :
  message k = None -> processed k = false ->
  has_rule ign (id result) e k ->
  scan_outcome w ign outcome = (t, Ok (curr, result)) ->
  exists e' known', first_stale curr = Some (e', known').
Proof.
  intros Hm Hp Hr Hs.
  destruct (scan_outcome_keeps _ _ _ _ _ _ _ _ Hm Hr Hs) as (known & He & Hk).
  destruct (unprocessed_found curr e known k He Hk Hp) as (e' & kn' & k' & F & _).
  now exists e', kn'.
Qed.

Lemma walk_not_Ok w ign outcomes rid e k outcome p tr r0 t rs :
  message k = None -> processed k = false ->
  has_rule ign rid e k ->
  outcome ∈ outcomes ->
  x_file outcome = Value p -> new_Result w p = (tr, Ok r0) -> id r0 = rid ->
  walk w ign outcomes <> (t, Ok rs).
Proof.
  intros Hm Hp Hr Hin Hfile Hres Hid H.
  apply list_elem_of_split in Hin as (opre & opost & ->).
  unfold walk in H. apply bind_Ok_inv in H as (t1 & [ign' rs'] & t2 & H & _).
  rewrite for_each_app in H.
  apply bind_Ok_inv in H as (t3 & [ign1 rs1] & t4 & Hpre & H & _).
  cbn [for_each] in H.
  apply bind_Ok_inv in H as (t5 & [ign2 rs2] & t6 & Ho & _).
  apply (walk_loop_keeps _ _ _ _ _ _ _ _ _ _ Hm Hp Hr) in Hpre.
  apply process_outcome_Ok in Ho as (curr & r & Hs & Hc & _).
  pose proof Hs as (p' & t0 & r0' & t7 & Hfile' & Hres' & _ & Hid')%scan_outcome_Ok.
  rewrite Hfile in Hfile'. injection Hfile' as <-.
  rewrite Hres in Hres'. injection Hres' as _ <-.
  rewrite <- Hid, <- Hid' in Hpre.
  destruct (scan_outcome_finds_stale _ _ _ _ _ _ _ _ Hm Hp Hpre Hs) as (e' & kn' & F).
  rewrite check_processed_spec in Hc. fold (first_stale curr) in Hc.
  rewrite F in Hc. discriminate.
Qed.

Lemma main_of_walk_stopped w options args t0 fl vl ti ign to outcomes tw st :
  parse_options options args = (t0, Ok (fl, vl)) ->
  load_ignored_issues w options = (ti, Ok ign) ->
  load_outcomes w args = (to, Ok outcomes) ->
  walk w ign outcomes = (tw, stopped st) ->
  main w options args = ((t0 ++ ti ++ to ++ tw)%list, stopped st).
Proof.
  intros Hp Hi Ho Hw. unfold main.
  assert (Hg : gather w options args = ((ti ++ to ++ tw)%list, stopped st)).
  { unfold gather. eapply bind_Ok; [exact Hi|].
    eapply bind_Ok; [exact Ho | exact Hw]. }
  eapply bind_Ok; [exact Hp|]. cbn beta iota. now apply bind_stopped.
Qed.

Lemma main_Ok_walk_Ok w options args t ti ign to outcomes :
  load_ignored_issues w options = (ti, Ok ign) ->
  load_outcomes w args = (to, Ok outcomes) ->
  main w options args = (t, Ok tt) ->
  exists tw rs, walk w ign outcomes = (tw, Ok rs).
Proof.
  intros Hi Ho H. unfold main in H.
  apply bind_Ok_inv in H as (t1 & [fl vl] & t2 & _ & H & _).
  apply bind_Ok_inv in H as (t3 & rs & t4 & Hg & _).
  unfold gather in Hg. rewrite Hi in Hg.
  apply bind_Ok_inv in Hg as (t5 & ign' & t6 & [= <- <-] & Hg & _).
  rewrite Ho in Hg.
  apply bind_Ok_inv in Hg as (t7 & os' & t8 & [= <- <-] & Hg & _).
  eauto.
Qed.

(** C10 as stated fails: the file holds a rule without message for the
    resource "a", which the report checks, and the run ends with the line
    about a missing reason, not with the line about a rule that was not
    used.  And when the rule carries a key "processed" in the file, the
    sweep accepts it and the run ends well. *)
Lemma no_message_other_ending :
  main (sample_world no_message_rules
          [outcome_of "a.xml" [sample_issue "error" "Bad thing" "Observation"]])
    known_options ["report.xml"]
  = ([ReadFile "known.yaml"; ReadFile "report.xml"; ReadFile "a.xml";
      Print (no_reason_line (Some "a") "Observation")], SysExit 1) /\
  main (sample_world marked_in_file [outcome_of "a.xml" []])
    known_options ["report.xml"]
  = ([ReadFile "known.yaml"; ReadFile "report.xml"; ReadFile "a.xml";
      Print "All well"], Ok tt).
Proof. split; reflexivity. Qed.

(** C10, amended. A rule without message is passed over by the loop over
    the rules: the loop does what it does without the rule and leaves the
    rule as it is, unmarked.  So when an accepted command line loads such a
    rule, not marked in the file itself, for the id of a resource that the
    report checks, the run ends with status 1; and when the walk gets to
    the sweep of the first outcome of that resource, it ends there with
    the line that reports an unused rule of that resource: the line names
    the id of the resource and the first expression, in the order of the
    dict, that holds a rule that is not marked. *)
Theorem rule_without_message w options args t0 fl vl ti ign to outcomes rid e k :
  message k = None -> processed k = false ->
  parse_options options args = (t0, Ok (fl, vl)) ->
  load_ignored_issues w options = (ti, Ok ign) ->
  load_outcomes w args = (to, Ok outcomes) ->
  has_rule ign rid e k ->
  (forall rid' e' txt pre post ig,
     match_known_issues rid' e' txt (pre ++ k :: post) ig =
     let* '(ig', known') := match_known_issues rid' e' txt (pre ++ post) ig in
     ret (ig', (take (length pre) known' ++ k :: drop (length pre) known')%list)) /\
  (forall outcome p tr r0,
     outcome ∈ outcomes -> x_file outcome = Value p ->
     new_Result w p = (tr, Ok r0) -> id r0 = rid ->
     exit_status (main w options args) = 1) /\
  (forall opre outcome opost t1 ign1 rs1 t2 curr result,
     outcomes = (opre ++ outcome :: opost)%list ->
     for_each (process_outcome w) opre (ign, []) = (t1, Ok (ign1, rs1)) ->
     scan_outcome w ign1 outcome = (t2, Ok (curr, result)) ->
     id result = rid ->
     exists e' known' k',
       first_stale curr = Some (e', known') /\
       k' ∈ known' /\ processed k' = false /\
       main w options args
       = ((t0 ++ ti ++ to ++ t1 ++ t2 ++ [Print (stale_line rid e')])%list,
          SysExit 1)).
Proof.
  intros Hm Hp Hopt Hi Ho Hr. repeat split.
  - intros rid' e' txt pre post ig. rewrite !match_known_issues_spec.
    rewrite !existsb_app. cbn [existsb].
    assert (M : matches txt k = false) by (unfold matches; now rewrite Hm).
    unfold unjustified at 2. rewrite M. cbn [andb orb].
    destruct (existsb (unjustified txt) pre || existsb (unjustified txt) post);
      [reflexivity|].
    cbn [bind ret app]. rewrite !map_app. cbn [map]. rewrite (no_message_mark _ _ Hm).
    rewrite <- (length_map (mark txt) pre) at 1 2.
    now rewrite take_app_length, drop_app_length.
  - intros outcome p tr r0 Hin Hfile Hres Hid.
    destruct (main_accepted w _ _ _ _ _ Hopt) as (t' & r & Hmain & _ & Hq).
    rewrite Hmain. unfold exit_status. cbn [snd] in *.
    destruct r as [[]|c|ex]; [|assumption|reflexivity]. exfalso.
    destruct (main_Ok_walk_Ok _ _ _ _ _ _ _ _ Hi Ho Hmain) as (tw & rs & Hw).
    exact (walk_not_Ok _ _ _ _ _ _ _ _ _ _ _ _ Hm Hp Hr Hin Hfile Hres Hid Hw).
  - intros opre outcome opost t1 ign1 rs1 t2 curr result -> Hpre Hs Hid.
    pose proof (walk_loop_keeps _ _ _ _ _ _ _ _ _ _ Hm Hp Hr Hpre) as Hr1.
    rewrite <- Hid in Hr1.
    destruct (scan_outcome_keeps _ _ _ _ _ _ _ _ Hm Hr1 Hs) as (known & He & Hk).
    destruct (unprocessed_found curr e known k He Hk Hp)
      as (e' & kn' & k' & F & _ & Hk' & Hp').
    exists e', kn', k'. rewrite <- Hid. repeat split; try assumption.
    pose proof (walk_stopped w ign opre outcome opost _ _ _ _ _ Hpre
                  (process_outcome_stale _ _ rs1 _ _ _ _ _ _ Hs F)) as Hw.
    exact (main_of_walk_stopped _ _ _ _ _ _ _ _ _ _ _ _ Hopt Hi Ho Hw).
Qed.

(** The rule without message stands under "Patient", after a rule under
    "Observation" that no issue uses either: the run fails, and the line
    names "Observation", the first expression with a rule that is not
    marked. *)
Lemma rule_without_message_witness :
  exit_status
    (main (sample_world no_message_second
             [outcome_of "b.xml" []; outcome_of "a.xml" [sample_issue "error" "Bad" "Patient"]])
       known_options ["report.xml"]) = 1 /\
  main (sample_world no_message_second
          [outcome_of "b.xml" []; outcome_of "a.xml" [sample_issue "error" "Bad" "Patient"]])
    known_options ["report.xml"]
  = ([ReadFile "known.yaml"; ReadFile "report.xml"; ReadFile "b.xml";
      ReadFile "a.xml"; Print (stale_line (Some "a") "Observation")], SysExit 1).
Proof.
  assert (Hr : has_rule no_message_second (Some "a") "Patient"
                 (sample_rule None (Some "known"))).
  { exists [("Observation", [sample_rule (Some "Odd") (Some "known")]);
            ("Patient", [sample_rule None (Some "known")])],
      [sample_rule None (Some "known")].
    repeat split; [|apply list_elem_of_singleton; reflexivity].
    apply elem_of_cons. right. apply list_elem_of_singleton. reflexivity. }
  destruct (rule_without_message
              (sample_world no_message_second
                 [outcome_of "b.xml" [];
                  outcome_of "a.xml" [sample_issue "error" "Bad" "Patient"]])
              known_options ["report.xml"] [] 1 3
              [ReadFile "known.yaml"] no_message_second [ReadFile "report.xml"]
              [outcome_of "b.xml" [];
               outcome_of "a.xml" [sample_issue "error" "Bad" "Patient"]]
              (Some "a") "Patient" (sample_rule None (Some "known"))
              eq_refl eq_refl eq_refl eq_refl eq_refl Hr) as (_ & Hstatus & Hline).
  split.
  - apply (Hstatus (outcome_of "a.xml" [sample_issue "error" "Bad" "Patient"])
             "a.xml" [ReadFile "a.xml"]
             {| file_path := "a.xml"; id := Some "a"; issues := [] |});
      try reflexivity.
    apply elem_of_cons. right. apply list_elem_of_singleton. reflexivity.
  - destruct (Hline [outcome_of "b.xml" []]
                (outcome_of "a.xml" [sample_issue "error" "Bad" "Patient"]) []
                [ReadFile "b.xml"] no_message_second
                [ {| file_path := "b.xml"; id := Some "b"; issues := [] |} ]
                [ReadFile "a.xml"]
                [("Observation", [sample_rule (Some "Odd") (Some "known")]);
                 ("Patient", [sample_rule None (Some "known")])]
                {| file_path := "a.xml"; id := Some "a";
                   issues := [Build_Issue "3" "7" "error" "Bad" "Patient"] |}
                eq_refl eq_refl eq_refl eq_refl)
      as (e' & known' & k' & F & _ & _ & Hmain).
    injection F as <- _. exact Hmain.
Defined.

(** * Further properties of the script *)

(** ** What the verdict prints *)

Lemma Issue_print_block fmt i : Issue_print fmt i = print (issue_block fmt i).
Proof. reflexivity. Qed.

Lemma report_issue_lines fl vl fmt s i :
  is_Some (issue_levels !! severity i) ->
  report_issue fl vl fmt s i
  = (map Print (if breaches vl i then [issue_block fmt i] else []),
     Ok (if breaches fl i then false else s)).
Proof.
  intros [lvl E]. unfold report_issue, issue_level, breaches. rewrite E.
  rewrite !bind_ret_l, Issue_print_block. now destruct (lvl <=? vl).
Qed.

Lemma report_issues_lines fl vl fmt l : forall s,
  (forall i, i ∈ l -> is_Some (issue_levels !! severity i)) ->
  for_each (report_issue fl vl fmt) l s
  = (map Print (map (issue_block fmt) (List.filter (breaches vl) l)),
     Ok (s && negb (existsb (breaches fl) l))).
Proof.
  induction l as [|i l IH]; intros s Hv; cbn [for_each existsb List.filter].
  - now rewrite andb_true_r.
  - etransitivity.
    { eapply bind_Ok; [apply report_issue_lines, Hv; now left|].
      apply IH. intros j Hj. apply Hv. now right. }
    destruct (breaches vl i), (breaches fl i), s; reflexivity.
Qed.

Lemma report_result_lines fl vl fmt s r :
  valid_result r ->
  report_result fl vl fmt s r
  = (map Print (result_lines vl fmt r),
     Ok (s && negb (existsb (breaches fl) (issues r)))).
Proof.
  intros Hv. unfold report_result, result_lines.
  destruct (issues r) as [|i l] eqn:E.
  - cbn. now rewrite andb_true_r.
  - cbn [length Nat.ltb Nat.leb].
    pose proof (report_issues_lines fl vl fmt (i :: l) s) as H.
    rewrite H by (intros j Hj; apply Hv; now rewrite E).
    cbn [bind print ret app]. cbn [map].
    now rewrite map_app.
Qed.

Lemma report_results_lines fl vl fmt results : forall s,
  Forall valid_result results ->
  for_each (report_result fl vl fmt) results s
  = (map Print (concat (map (result_lines vl fmt) results)),
     Ok (s && negb (failing fl results))).
Proof.
  unfold failing.
  induction results as [|r results IH]; intros s Hv;
    cbn [for_each existsb map concat].
  - now rewrite andb_true_r.
  - apply Forall_cons in Hv as [Hr Hv]. etransitivity.
    { eapply bind_Ok; [now apply report_result_lines | now apply IH]. }
    now rewrite map_app, negb_orb, andb_assoc.
Qed.

Lemma verdict_valid fl vl fmt results :
  Forall valid_result results ->
  verdict fl vl fmt results
  = (map Print (verdict_lines fl vl fmt results),
     if failing fl results then SysExit 1 else Ok tt).
Proof.
  intros Hv. unfold verdict, verdict_lines.
  rewrite (report_results_lines fl vl fmt results true Hv). cbn [andb].
  rewrite map_app. now destruct (failing fl results).
Qed.

Lemma main_valid w options args t0 fl vl t results :
  parse_options options args = (t0, Ok (fl, vl)) ->
  gather w options args = (t, Ok results) ->
  main w options args
  = ((t0 ++ t ++ map Print (verdict_lines fl vl (formatter_of options) results))%list,
     if failing fl results then SysExit 1 else Ok tt).
Proof.
  intros Hp Hg. unfold main. eapply bind_Ok; [exact Hp|]. cbn beta iota.
  eapply bind_Ok; [exact Hg|]. apply verdict_valid. eapply gather_valid, Hg.
Qed.

(** X1. The output of the verdict, for results whose issues have
    recognised severities (which is what the walk produces): for each
    result with issues, in order, the heading, one block per issue at or
    below the verbosity level, in the order of the report, and an empty
    line; results without issues give nothing; then the closing line.  The
    script leaves with status 1 exactly when an issue is at or below the
    fail level. *)
Theorem verdict_output fl vl fmt results :
  Forall valid_result results ->
  verdict fl vl fmt results
  = (map Print (verdict_lines fl vl fmt results),
     if failing fl results then SysExit 1 else Ok tt).
Proof. apply verdict_valid. Qed.

Lemma verdict_output_witness :
  verdict 1 2 plain_formatter
    [ {| file_path := "a.xml"; id := Some "a"; issues := [] |};
      {| file_path := "b.xml"; id := None;
         issues := [Build_Issue "3" "7" "information" "Note" "Patient";
                    Build_Issue "?" "?" "error" "Bad" "Patient.name"] |} ]
  = ([Print "== b.xml";
      Print ("  -  error at Patient.name (?, ?):" +:+ newline +:+ "     Bad");
      Print ""; Print "There were errors during validation"], SysExit 1).
Proof.
  refine (verdict_output 1 2 plain_formatter _ _).
  repeat constructor; intros i Hi; simpl in Hi;
    repeat (apply elem_of_cons in Hi as [->|Hi]); try (now apply elem_of_nil in Hi);
    now eexists.
Defined.

Lemma printed_map_Print l : printed (map Print l) = l.
Proof.
  induction l as [|x l IH]; [reflexivity|].
  change (printed (map Print (x :: l))) with (x :: printed (map Print l)).
  now rewrite IH.
Qed.

Lemma parse_options_levels options args t0 fl vl :
  parse_options options args = (t0, Ok (fl, vl)) ->
  t0 = [] /\ issue_levels !! opt_fail_at options = Some fl /\
  issue_levels !! opt_verbosity_level options = Some vl /\
  1 <= fl /\ fl <= vl.
Proof.
  intros Hp.
  destruct (parse_options_cases options args)
    as [(a & b & Hp' & Ha & Hb & Hle & _ & Cf & _)|(msg & Hp' & _)];
    rewrite Hp in Hp'; [|discriminate].
  injection Hp' as -> -> ->. repeat split; try assumption.
  apply choice_cases in Cf as [E|[E|E]]; rewrite E in Ha; now injection Ha as <-.
Qed.

Lemma breaches_mono fl fl' i : fl <= fl' -> breaches fl i = true -> breaches fl' i = true.
Proof.
  unfold breaches. destruct (issue_levels !! severity i); [|discriminate].
  rewrite !Z.leb_le. lia.
Qed.

Lemma failing_spec fl results :
  failing fl results = true <->
  exists r i, r ∈ results /\ i ∈ issues r /\ breaches fl i = true.
Proof.
  unfold failing. rewrite existsb_exists. split.
  - intros (r & Hr & (i & Hi & B)%existsb_exists).
    exists r, i. rewrite !list_elem_of_In. auto.
  - intros (r & i & Hr & Hi & B). exists r. rewrite <- list_elem_of_In.
    split; [assumption|]. apply existsb_exists. exists i.
    rewrite <- list_elem_of_In. auto.
Qed.

Lemma failing_mono fl fl' results :
  fl <= fl' -> failing fl results = true -> failing fl' results = true.
Proof.
  intros Hle (r & i & Hr & Hi & B)%failing_spec. apply failing_spec.
  exists r, i. eauto using breaches_mono.
Qed.

(** The status of a run whose command line is accepted. *)
Lemma exit_status_main w options args t0 fl vl :
  parse_options options args = (t0, Ok (fl, vl)) ->
  exit_status (main w options args) =
  match snd (gather w options args) with
  | Ok results => if failing fl results then 1 else 0
  | SysExit c => c
  | Raised _ => 1
  end.
Proof.
  intros Hp. destruct (gather w options args) as [t [results|c|e]] eqn:Hg.
  - rewrite (main_valid _ _ _ _ _ _ _ _ Hp Hg). unfold exit_status. cbn [snd].
    now destruct (failing fl results).
  - unfold main. rewrite Hp. cbn beta iota delta [bind]. now rewrite Hg.
  - unfold main. rewrite Hp. cbn beta iota delta [bind]. now rewrite Hg.
Qed.

Lemma gather_same_file w o o' args :
  opt_ignored_issues o' = opt_ignored_issues o -> gather w o' args = gather w o args.
Proof. intros H. unfold gather, load_ignored_issues. now rewrite H. Qed.

(** X2. On an accepted command line the fail level is not greater than
    the verbosity level, so every kept issue that makes the run fail is
    printed: its block is among the lines of the run. *)
Theorem failing_issue_shown w options args t0 fl vl t results r i :
  parse_options options args = (t0, Ok (fl, vl)) ->
  gather w options args = (t, Ok results) ->
  r ∈ results -> i ∈ issues r -> breaches fl i = true ->
  issue_block (formatter_of options) i ∈ stdout (main w options args).
Proof.
  intros Hp Hg Hr Hi B.
  rewrite (main_valid _ _ _ _ _ _ _ _ Hp Hg). unfold stdout. cbn [fst].
  rewrite !printed_app, printed_map_Print.
  apply parse_options_levels in Hp as (_ & _ & _ & _ & Hle).
  apply elem_of_app. right. apply elem_of_app. right.
  unfold verdict_lines. apply elem_of_app. left.
  apply list_elem_of_In, in_concat. exists (result_lines vl (formatter_of options) r).
  split; [apply in_map, list_elem_of_In, Hr|].
  unfold result_lines. destruct (issues r) as [|i0 l] eqn:E;
    [now apply elem_of_nil in Hi|].
  right. apply in_or_app. left. apply in_map, filter_In.
  split; [now apply list_elem_of_In | eauto using breaches_mono].
Qed.

Lemma failing_issue_shown_witness :
  ("  -  error at Patient (3, 7):" +:+ newline +:+ "     Bad")
  ∈ stdout (main (sample_world ∅ [outcome_of "a.xml" [sample_issue "error" "Bad" "Patient"]])
              {| opt_fail_at := "error"; opt_verbosity_level := "error";
                 opt_colorize := false; opt_ignored_issues := None |}
              ["report.xml"]).
Proof.
  refine (failing_issue_shown
            (sample_world ∅ [outcome_of "a.xml" [sample_issue "error" "Bad" "Patient"]])
            {| opt_fail_at := "error"; opt_verbosity_level := "error";
               opt_colorize := false; opt_ignored_issues := None |}
            ["report.xml"] [] 1 1 [ReadFile "report.xml"; ReadFile "a.xml"]
            [ {| file_path := "a.xml"; id := Some "a";
                 issues := [Build_Issue "3" "7" "error" "Bad" "Patient"] |} ]
            {| file_path := "a.xml"; id := Some "a";
               issues := [Build_Issue "3" "7" "error" "Bad" "Patient"] |}
            (Build_Issue "3" "7" "error" "Bad" "Patient")
            eq_refl eq_refl _ _ eq_refl);
    apply list_elem_of_singleton; reflexivity.
Defined.

(** X3. The exit status does not depend on [--verbosity-level] nor on
    [--colorize]: two accepted command lines with the same [--fail-at] and
    the same file of known issues end with the same status. *)
Theorem status_ignores_display w o o' args th th' :
  opt_fail_at o' = opt_fail_at o ->
  opt_ignored_issues o' = opt_ignored_issues o ->
  snd (parse_options o args) = Ok th ->
  snd (parse_options o' args) = Ok th' ->
  exit_status (main w o args) = exit_status (main w o' args).
Proof.
  intros Hf Hi Hp Hp'.
  destruct (parse_options o args) as [t0 s] eqn:E. cbn in Hp. subst s.
  destruct (parse_options o' args) as [t0' s'] eqn:E'. cbn in Hp'. subst s'.
  destruct th as [fl vl], th' as [fl' vl'].
  rewrite (exit_status_main _ _ _ _ _ _ E), (exit_status_main _ _ _ _ _ _ E').
  rewrite (gather_same_file w o o' args Hi).
  apply parse_options_levels in E as (_ & Ha & _).
  apply parse_options_levels in E' as (_ & Ha' & _).
  rewrite Hf, Ha in Ha'. now injection Ha' as <-.
Qed.

Lemma status_ignores_display_witness :
  exit_status
    (main (sample_world ∅ [outcome_of "a.xml" [sample_issue "warning" "Odd" "Patient"]])
       default_options ["report.xml"])
  = exit_status
      (main (sample_world ∅ [outcome_of "a.xml" [sample_issue "warning" "Odd" "Patient"]])
         {| opt_fail_at := "error"; opt_verbosity_level := "error";
            opt_colorize := true; opt_ignored_issues := None |} ["report.xml"]).
Proof.
  exact (status_ignores_display
           (sample_world ∅ [outcome_of "a.xml" [sample_issue "warning" "Odd" "Patient"]])
           default_options
           {| opt_fail_at := "error"; opt_verbosity_level := "error";
              opt_colorize := true; opt_ignored_issues := None |}
           ["report.xml"] (1, 3) (1, 1) eq_refl eq_refl eq_refl eq_refl).
Defined.

(** X4. The verdict is monotone in the fail level: when a run ends with
    status 0, the run with the same files and a fail level that is not
    greater (a level that lets more severities pass) ends with status 0
    too. *)
Theorem status_monotone w o o' args fl vl fl' vl' :
  opt_ignored_issues o' = opt_ignored_issues o ->
  snd (parse_options o args) = Ok (fl, vl) ->
  snd (parse_options o' args) = Ok (fl', vl') ->
  fl' <= fl ->
  exit_status (main w o args) = 0 -> exit_status (main w o' args) = 0.
Proof.
  intros Hi Hp Hp' Hle.
  destruct (parse_options o args) as [t0 s] eqn:E. cbn in Hp. subst s.
  destruct (parse_options o' args) as [t0' s'] eqn:E'. cbn in Hp'. subst s'.
  rewrite (exit_status_main _ _ _ _ _ _ E), (exit_status_main _ _ _ _ _ _ E').
  rewrite (gather_same_file w o o' args Hi).
  destruct (snd (gather w o args)) as [results|c|e]; try easy.
  destruct (failing fl results) eqn:F; [discriminate|]. intros _.
  destruct (failing fl' results) eqn:F'; [|reflexivity].
  now rewrite (failing_mono _ _ _ Hle F') in F.
Qed.

Lemma status_monotone_witness :
  exit_status
    (main (sample_world ∅ [outcome_of "a.xml" [sample_issue "information" "Note" "Patient"]])
       default_options ["report.xml"]) = 0.
Proof.
  refine (status_monotone
            (sample_world ∅ [outcome_of "a.xml" [sample_issue "information" "Note" "Patient"]])
            {| opt_fail_at := "warning"; opt_verbosity_level := "information";
               opt_colorize := false; opt_ignored_issues := None |}
            default_options ["report.xml"] 2 3 1 3 eq_refl eq_refl eq_refl _ eq_refl).
  lia.
Defined.

(** X5. Whatever [--fail-at] is chosen, a kept issue of severity "fatal" or
    "error" makes the run fail: the choices of [--fail-at] start at
    "error". *)
Theorem error_always_fails w options args t0 fl vl t results r i :
  parse_options options args = (t0, Ok (fl, vl)) ->
  gather w options args = (t, Ok results) ->
  r ∈ results -> i ∈ issues r ->
  severity i = "fatal" \/ severity i = "error" ->
  snd (main w options args) = SysExit 1 /\
  last (stdout (main w options args)) = Some (errors_line (formatter_of options)).
Proof.
  intros Hp Hg Hr Hi Hs.
  rewrite (main_valid _ _ _ _ _ _ _ _ Hp Hg). unfold stdout. cbn [fst snd].
  apply parse_options_levels in Hp as (_ & _ & _ & H1 & _).
  assert (F : failing fl results = true).
  { apply failing_spec. exists r, i. repeat split; try assumption.
    unfold breaches. destruct Hs as [-> | ->].
    - change (issue_levels !! "fatal") with (Some 0). apply Z.leb_le. lia.
    - change (issue_levels !! "error") with (Some 1). now apply Z.leb_le. }
  rewrite F. split; [reflexivity|].
  rewrite !printed_app, printed_map_Print. unfold verdict_lines. rewrite F.
  now rewrite !app_assoc, last_snoc.
Qed.

Lemma error_always_fails_witness :
  snd (main (sample_world ∅ [outcome_of "a.xml" [sample_issue "fatal" "Broken" "Patient"]])
         {| opt_fail_at := "information"; opt_verbosity_level := "information";
            opt_colorize := false; opt_ignored_issues := None |} ["report.xml"])
  = SysExit 1.
Proof.
  refine (proj1 (error_always_fails
            (sample_world ∅ [outcome_of "a.xml" [sample_issue "fatal" "Broken" "Patient"]])
            {| opt_fail_at := "information"; opt_verbosity_level := "information";
               opt_colorize := false; opt_ignored_issues := None |}
            ["report.xml"] [] 3 3 [ReadFile "report.xml"; ReadFile "a.xml"]
            [ {| file_path := "a.xml"; id := Some "a";
                 issues := [Build_Issue "3" "7" "fatal" "Broken" "Patient"] |} ]
            {| file_path := "a.xml"; id := Some "a";
               issues := [Build_Issue "3" "7" "fatal" "Broken" "Patient"] |}
            (Build_Issue "3" "7" "fatal" "Broken" "Patient")
            eq_refl eq_refl _ _ (or_introl eq_refl)));
    apply list_elem_of_singleton; reflexivity.
Defined.

(** ** The walk only marks rules *)

Lemma marks_rule_refl k : marks_rule k k.
Proof. now repeat split. Qed.

Lemma marks_rule_trans k1 k2 k3 :
  marks_rule k1 k2 -> marks_rule k2 k3 -> marks_rule k1 k3.
Proof.
  intros (M1 & R1 & P1) (M2 & R2 & P2). repeat split; [congruence..|auto].
Qed.

Lemma marks_rules_refl known : Forall2 marks_rule known known.
Proof. induction known; constructor; auto using marks_rule_refl. Qed.

Lemma marks_rules_trans l1 : forall l2 l3,
  Forall2 marks_rule l1 l2 -> Forall2 marks_rule l2 l3 -> Forall2 marks_rule l1 l3.
Proof.
  induction l1 as [|k l1 IH]; intros l2 l3 H12 H23; inversion H12; subst;
    inversion H23; subst; constructor; eauto using marks_rule_trans.
Qed.

Lemma marks_map_refl m : marks_map m m.
Proof.
  induction m as [|[e known] m IH]; constructor; [|exact IH].
  split; [reflexivity | apply marks_rules_refl].
Qed.

Lemma marks_map_trans m1 : forall m2 m3,
  marks_map m1 m2 -> marks_map m2 m3 -> marks_map m1 m3.
Proof.
  unfold marks_map.
  induction m1 as [|en m1 IH]; intros m2 m3 H12 H23; inversion H12; subst;
    inversion H23; subst; constructor; eauto.
  destruct H1 as [E1 F1], H2 as [E2 F2]. split; [congruence|].
  eauto using marks_rules_trans.
Qed.

Lemma marks_rule_mark txt k : marks_rule k (mark txt k).
Proof. unfold mark. destruct (matches txt k); now repeat split. Qed.

Lemma marks_rules_mark txt known : Forall2 marks_rule known (map (mark txt) known).
Proof. induction known; constructor; auto using marks_rule_mark. Qed.

Lemma marks_map_replace x (known known' : list known_issue) (m : ignored_map) :
  dict_get x m = Some known -> Forall2 marks_rule known known' ->
  marks_map m (dict_replace x known' m).
Proof.
  induction m as [|[e v] m IH]; cbn [dict_get dict_replace]; [discriminate|].
  destruct (x =? e)%string.
  - intros [= ->] H. constructor; [now split | apply marks_map_refl].
  - intros Hg H. constructor; [|now apply IH].
    split; [reflexivity | apply marks_rules_refl].
Qed.

Lemma check_ignored_marks rid n curr f t ig curr' :
  check_ignored rid n curr f = (t, Ok (ig, curr')) -> marks_map curr curr'.
Proof.
  unfold check_ignored. destruct (dict_get (expression f) curr) as [known|] eqn:D.
  - rewrite match_known_issues_spec.
    destruct (existsb (unjustified (text f)) known); [discriminate|].
    cbn [bind ret app]. intros [= <- <- <-].
    eapply marks_map_replace; [exact D | apply marks_rules_mark].
  - destruct (_ && _); intros [= <- <- <-]; apply marks_map_refl.
Qed.

Lemma process_issues_marks n issues : forall curr r t curr' r',
  for_each (process_issue n) issues (curr, r) = (t, Ok (curr', r')) ->
  marks_map curr curr'.
Proof.
  intros curr r t curr' r' H.
  refine (for_each_invariant (fun st => marks_map curr (fst st))
            _ _ _ (curr, r) _ (curr', r') (marks_map_refl curr) H).
  intros [c1 r1] x t' [c2 r2] Hc Hx. simpl in *.
  apply process_issue_Ok in Hx as (f & ig & _ & Hx & _).
  eapply marks_map_trans; [exact Hc | eapply check_ignored_marks, Hx].
Qed.

Lemma scan_outcome_marks w ign outcome t curr r :
  scan_outcome w ign outcome = (t, Ok (curr, r)) ->
  marks_map (current_ignored ign (id r)) curr.
Proof.
  intros (p & t0 & r0 & t1 & _ & _ & Hloop & ->)%scan_outcome_Ok.
  eapply process_issues_marks, Hloop.
Qed.

Lemma marks_store_refl s : marks_store s s.
Proof.
  intros rid. destruct (s !! rid) as [[m|]|]; try exact I. apply marks_map_refl.
Qed.

Lemma marks_store_trans s1 s2 s3 :
  marks_store s1 s2 -> marks_store s2 s3 -> marks_store s1 s3.
Proof.
  intros H12 H23 rid. specialize (H12 rid). specialize (H23 rid).
  destruct (s1 !! rid) as [[m1|]|], (s2 !! rid) as [[m2|]|],
    (s3 !! rid) as [[m3|]|]; try easy.
  cbn in *. eauto using marks_map_trans.
Qed.

Lemma write_back_marks ign rid curr :
  marks_map (current_ignored ign rid) curr ->
  marks_store ign (write_back ign rid curr).
Proof.
  unfold current_ignored, write_back. intros H rid'.
  destruct (ign !! rid) as [[m|]|] eqn:E; try apply marks_store_refl.
  unfold store in *. destruct (decide (rid = rid')) as [<-|Hne].
  - now rewrite lookup_insert_eq, E.
  - rewrite lookup_insert_ne by assumption.
    destruct (ign !! rid') as [[m'|]|]; try exact I. apply marks_map_refl.
Qed.

Lemma process_outcome_marks w ign rs outcome t ign' rs' :
  process_outcome w (ign, rs) outcome = (t, Ok (ign', rs')) -> marks_store ign ign'.
Proof.
  intros (curr & r & Hs & _ & -> & _)%process_outcome_Ok.
  eapply write_back_marks, scan_outcome_marks, Hs.
Qed.

(** X6. The walk never adds, removes, reorders or rewrites a rule: when
    the loop over the outcomes comes to its end, the dict of known issues
    has the same resource ids, the same expressions in the same order and
    the same rules with the same message and reason; the only change is
    that rules may have gained the key "processed", and none has lost
    it. *)
Theorem walk_only_marks w outcomes ign rs t ign' rs' :
  for_each (process_outcome w) outcomes (ign, rs) = (t, Ok (ign', rs')) ->
  marks_store ign ign'.
Proof.
  intros H.
  refine (for_each_invariant (fun st => marks_store ign (fst st))
            _ _ _ (ign, rs) _ (ign', rs') (marks_store_refl ign) H).
  intros [i1 r1] x t' [i2 r2] Hc Hx. simpl in *.
  eapply marks_store_trans; [exact Hc | eapply process_outcome_marks, Hx].
Qed.

Lemma walk_only_marks_witness :
  marks_store
    {[ Some "a" := Some [("Patient", [sample_rule (Some "Bad") (Some "known")])] ]}
    {[ Some "a" := Some [("Patient", [set_processed (sample_rule (Some "Bad") (Some "known"))])] ]}.
Proof.
  exact (walk_only_marks
           (sample_world ∅ [])
           [outcome_of "a.xml" [sample_issue "error" "Bad thing" "Patient"]]
           {[ Some "a" := Some [("Patient", [sample_rule (Some "Bad") (Some "known")])] ]}
           [] [ReadFile "a.xml"] _
           [ {| file_path := "a.xml"; id := Some "a"; issues := [] |} ]
           eq_refl).
Defined.

Lemma marks_rules_processed known : forall known',
  Forall2 marks_rule known known' ->
  (forall k, k ∈ known -> processed k = true) ->
  forall k', k' ∈ known' -> processed k' = true.
Proof.
  induction known as [|k known IH]; intros known' H Hall k' Hk'; inversion H; subst.
  - now apply elem_of_nil in Hk'.
  - apply elem_of_cons in Hk' as [->|Hk'].
    + destruct H2 as (_ & _ & Hp). apply Hp, Hall. now left.
    + eapply IH; [eassumption | | exact Hk']. intros k0 Hk0. apply Hall. now right.
Qed.

Lemma marks_map_processed m : forall m',
  marks_map m m' -> all_processed m -> all_processed m'.
Proof.
  unfold marks_map, all_processed.
  induction m as [|[e known] m IH]; intros m' H Hall e' known' k' He' Hk';
    inversion H; subst.
  - now apply elem_of_nil in He'.
  - apply elem_of_cons in He' as [<-|He'].
    + destruct H2 as [_ H2]. cbn in H2.
      eapply marks_rules_processed; [exact H2 | | exact Hk'].
      intros k0 Hk0. eapply (Hall e known); [now left | exact Hk0].
    + eapply IH; [eassumption | | exact He' | exact Hk'].
      intros e0 kn0 k0 He0 Hk0. eapply Hall; [right; exact He0 | exact Hk0].
Qed.

Lemma marks_store_processed s s' rid :
  marks_store s s' -> all_processed (current_ignored s rid) ->
  all_processed (current_ignored s' rid).
Proof.
  intros H. specialize (H rid). unfold current_ignored.
  destruct (s !! rid) as [[m|]|], (s' !! rid) as [[m'|]|]; try easy.
  cbn in H. now apply marks_map_processed.
Qed.

Lemma check_processed_Ok rid curr t :
  check_processed rid curr = (t, Ok tt) -> all_processed curr.
Proof.
  rewrite check_processed_spec. intros H e known k He Hk.
  destruct (processed k) eqn:Hp; [reflexivity|].
  destruct (unprocessed_found curr e known k He Hk Hp) as (e' & kn' & k' & F & _).
  rewrite F in H. discriminate.
Qed.

Lemma write_back_current ign rid curr :
  all_processed curr -> all_processed (current_ignored (write_back ign rid curr) rid).
Proof.
  intros H. unfold write_back, current_ignored.
  destruct (ign !! rid) as [[m|]|] eqn:E.
  - unfold store in *. now rewrite lookup_insert_eq.
  - rewrite E. intros e known k He. now apply elem_of_nil in He.
  - rewrite E. intros e known k He. now apply elem_of_nil in He.
Qed.

Lemma walk_loop_all_processed w outcomes ign t ign' rs' :
  for_each (process_outcome w) outcomes (ign, []) = (t, Ok (ign', rs')) ->
  forall r, r ∈ rs' -> all_processed (current_ignored ign' (id r)).
Proof.
  intros H.
  refine (for_each_invariant
            (fun st => forall r, r ∈ snd st ->
                       all_processed (current_ignored (fst st) (id r)))
            _ _ _ (ign, []) _ (ign', rs') _ H).
  - intros [i1 r1] x t' [i2 r2] Hc Hx. simpl in *.
    pose proof (process_outcome_marks _ _ _ _ _ _ _ Hx) as Hm.
    apply process_outcome_Ok in Hx as (curr & r0 & _ & Hchk & -> & ->).
    intros r [Hr| ->%list_elem_of_singleton]%elem_of_app.
    + eapply marks_store_processed; [exact Hm | now apply Hc].
    + eapply write_back_current, check_processed_Ok, Hchk.
  - intros r Hr. now apply elem_of_nil in Hr.
Qed.

(** X7. When the loop over the outcomes comes to its end, every rule
    registered for the id of a resource of the report carries the key
    "processed": a run that reaches the verdict has left no rule of a
    checked resource unused. *)
Theorem checked_rules_all_marked w outcomes ign t ign' rs' :
  for_each (process_outcome w) outcomes (ign, []) = (t, Ok (ign', rs')) ->
  forall r e known k,
    r ∈ rs' -> (e, known) ∈ current_ignored ign' (id r) -> k ∈ known ->
    processed k = true.
Proof.
  intros H r e known k Hr.
  exact (walk_loop_all_processed w outcomes ign t ign' rs' H r Hr e known k).
Qed.

Lemma checked_rules_all_marked_witness :
  processed (set_processed (sample_rule (Some "Bad") (Some "known"))) = true.
Proof.
  refine (checked_rules_all_marked
            (sample_world ∅ [])
            [outcome_of "a.xml" [sample_issue "error" "Bad thing" "Patient"]]
            {[ Some "a" := Some [("Patient", [sample_rule (Some "Bad") (Some "known")])] ]}
            [ReadFile "a.xml"]
            {[ Some "a" := Some [("Patient", [set_processed (sample_rule (Some "Bad") (Some "known"))])] ]}
            [ {| file_path := "a.xml"; id := Some "a"; issues := [] |} ]
            eq_refl
            {| file_path := "a.xml"; id := Some "a"; issues := [] |}
            "Patient" [set_processed (sample_rule (Some "Bad") (Some "known"))] _ _ _ _);
    apply list_elem_of_singleton; reflexivity.
Defined.

(** ** The loop over the rules, again *)

Lemma matches_mark txt txt' k : matches txt (mark txt' k) = matches txt k.
Proof. unfold mark. now destruct (matches txt' k). Qed.

Lemma unjustified_mark txt txt' k : unjustified txt (mark txt' k) = unjustified txt k.
Proof. unfold unjustified. rewrite matches_mark. unfold mark. now destruct (matches txt' k). Qed.

Lemma mark_mark txt k : mark txt (mark txt k) = mark txt k.
Proof.
  unfold mark at 1. rewrite matches_mark. unfold mark.
  now destruct (matches txt k).
Qed.

(** X8. The loop over the rules is idempotent, and a rule is not used up
    by the issue that it suppresses: run again on the rules that it left,
    for the same text, the loop gives the same decision, prints nothing
    and leaves the rules as they are.  A second issue with the same text
    is ignored like the first. *)
Theorem matcher_idempotent rid e txt known ig t flag known' :
  match_known_issues rid e txt known ig = (t, Ok (flag, known')) ->
  t = [] /\
  match_known_issues rid e txt known' ig = ([], Ok (flag, known')).
Proof.
  rewrite !match_known_issues_spec.
  destruct (existsb (unjustified txt) known) eqn:U; [discriminate|].
  intros [= <- <- <-]. split; [reflexivity|].
  assert (U' : existsb (unjustified txt) (map (mark txt) known) = false).
  { rewrite <- U. clear. induction known as [|k l IH]; [reflexivity|].
    cbn [map existsb]. now rewrite unjustified_mark, IH. }
  assert (M' : existsb (matches txt) (map (mark txt) known)
               = existsb (matches txt) known).
  { clear. induction known as [|k l IH]; [reflexivity|].
    cbn [map existsb]. now rewrite matches_mark, IH. }
  assert (K' : map (mark txt) (map (mark txt) known) = map (mark txt) known).
  { clear. induction known as [|k l IH]; [reflexivity|].
    cbn [map]. now rewrite mark_mark, IH. }
  now rewrite U', M', K'.
Qed.

Lemma matcher_idempotent_witness :
  match_known_issues (Some "a") "Patient" "Bad thing"
    [set_processed (sample_rule (Some "Bad") (Some "known")); sample_rule (Some "Odd") None]
    false
  = ([], Ok (true, [set_processed (sample_rule (Some "Bad") (Some "known"));
                    sample_rule (Some "Odd") None])).
Proof.
  exact (proj2 (matcher_idempotent (Some "a") "Patient" "Bad thing"
                  [sample_rule (Some "Bad") (Some "known"); sample_rule (Some "Odd") None]
                  false [] true _ eq_refl)).
Defined.

(** ** What is kept and what is dropped *)

Lemma check_ignored_flag rid n curr f t ig curr' :
  check_ignored rid n curr f = (t, Ok (ig, curr')) ->
  t = [] /\ (ig = true <-> justified n curr f).
Proof.
  unfold check_ignored, justified.
  destruct (dict_get (expression f) curr) as [known|] eqn:D.
  - rewrite match_known_issues_spec.
    destruct (existsb (unjustified (text f)) known) eqn:U; [discriminate|].
    cbn [bind ret app orb]. intros [= <- <- <-]. split; [reflexivity|]. split.
    + intros (k & Hk%list_elem_of_In & M)%existsb_exists. left.
      exists known, k. repeat split; try assumption.
      destruct (reason k) eqn:R; [eauto|]. exfalso.
      apply not_true_iff_false in U. apply U, existsb_exists. exists k.
      rewrite <- list_elem_of_In. split; [assumption|].
      unfold unjustified. now rewrite M, R.
    + intros [(known' & k & [= <-] & Hk & M & _)|[[=] _]].
      apply existsb_exists. exists k. now rewrite <- list_elem_of_In.
  - destruct ((severity f =? "information")%string && (text f =? "All OK")%string
              && (n =? 1)%nat) eqn:C; intros [= <- <- <-]; (split; [reflexivity|]).
    + apply andb_true_iff in C as [[S T]%andb_true_iff N].
      apply String.eqb_eq in S, T. apply Nat.eqb_eq in N.
      split; [intros _; right; auto | reflexivity].
    + split; [discriminate|]. intros [(known & k & [=] & _)|(_ & S & T & N)].
      rewrite S, T, N in C. discriminate.
Qed.

(** X9. No issue is dropped without a ground: when the treatment of an
    issue carries on, either the issue is ignored, and then a rule
    registered for its expression matches its text and gives a reason, or
    it is the "All OK" marker of an outcome with one issue and no rule for
    its expression; or else the issue is appended to the result with the
    fields read from the report, and its severity is a recognised one. *)
Theorem dropped_only_when_justified n curr r issue f t curr' r' :
  extract_fields issue = ([], Ok f) ->
  process_issue n (curr, r) issue = (t, Ok (curr', r')) ->
  t = [] /\
  ((justified n curr f /\ r' = r) \/
   (~ justified n curr f /\ issues r' = (issues r ++ [f])%list /\
    is_Some (issue_levels !! severity f))).
Proof.
  intros Hf (f' & ig & Hf' & Hc & Ht & Hk)%process_issue_Ok.
  rewrite Hf in Hf'. injection Hf' as <-.
  apply check_ignored_flag in Hc as [-> Hj]. split; [reflexivity|].
  destruct ig.
  - left. split; [now apply Hj | now apply Ht].
  - right. destruct (Hk eq_refl) as [Hs ->]. repeat split; try assumption.
    + intros J. apply Hj in J. discriminate.
    + cbn. now destruct f.
Qed.

Lemma dropped_only_when_justified_witness :
  ~ justified 2 [("Patient", [sample_rule (Some "Bad") (Some "known")])]
      (Build_Issue "3" "7" "information" "All OK" "Observation").
Proof.
  destruct (dropped_only_when_justified 2
              [("Patient", [sample_rule (Some "Bad") (Some "known")])]
              {| file_path := "a.xml"; id := Some "a"; issues := [] |}
              (sample_issue "information" "All OK" "Observation")
              (Build_Issue "3" "7" "information" "All OK" "Observation") [] _ _
              eq_refl eq_refl) as [_ [[_ H]|[H _]]]; [discriminate | exact H].
Defined.

(** ** One result for each outcome *)

Lemma scan_outcome_file w ign outcome t curr r :
  scan_outcome w ign outcome = (t, Ok (curr, r)) -> x_file outcome = Value (file_path r).
Proof.
  intros (p & t0 & r0 & t1 & Hfile & Hres & Hloop & _)%scan_outcome_Ok.
  apply process_issues_same in Hloop as [_ ->].
  now apply new_Result_Ok in Hres as (_ & -> & _).
Qed.

Lemma walk_loop_results w outcomes : forall ign rs t ign' rs',
  for_each (process_outcome w) outcomes (ign, rs) = (t, Ok (ign', rs')) ->
  exists new,
    rs' = (rs ++ new)%list /\
    Forall2 (fun o r => x_file o = Value (file_path r)) outcomes new.
Proof.
  induction outcomes as [|o outcomes IH]; intros ign rs t ign' rs' H;
    cbn [for_each] in H.
  - injection H as _ _ <-. exists []. now rewrite app_nil_r.
  - apply bind_Ok_inv in H as (t1 & [ign1 rs1] & t2 & Ho & H & _).
    apply process_outcome_Ok in Ho as (curr & r & Hs & _ & _ & ->).
    apply IH in H as (new & -> & Hnew). exists (r :: new). split.
    + now rewrite <- app_assoc.
    + constructor; [eapply scan_outcome_file, Hs | exact Hnew].
Qed.

(** X10. A walk that comes to its end has made one result for each
    outcome of the report, in the order of the report, under the path that
    the outcome names. *)
Theorem one_result_per_outcome w ign outcomes t results :
  walk w ign outcomes = (t, Ok results) ->
  Forall2 (fun o r => x_file o = Value (file_path r)) outcomes results /\
  length results = length outcomes.
Proof.
  unfold walk. intros H.
  apply bind_Ok_inv in H as (t1 & [ign' rs'] & t2 & H & E & _).
  injection E as _ <-. apply walk_loop_results in H as (new & -> & Hnew).
  split; [exact Hnew | symmetry; eapply Forall2_length, Hnew].
Qed.

Lemma one_result_per_outcome_witness :
  length [ {| file_path := "b.xml"; id := Some "b"; issues := [] |};
           {| file_path := "anon.xml"; id := None; issues := [] |} ]
  = length [outcome_of "b.xml" []; outcome_of "anon.xml" [all_ok_issue]].
Proof.
  exact (proj2 (one_result_per_outcome (sample_world ∅ []) ∅
                  [outcome_of "b.xml" []; outcome_of "anon.xml" [all_ok_issue]]
                  [ReadFile "b.xml"; ReadFile "anon.xml"] _ eq_refl)).
Defined.

Lemma process_issues_kept n l : forall curr r t curr' r',
  for_each (process_issue n) l (curr, r) = (t, Ok (curr', r')) ->
  exists fs kept,
    Forall2 (fun x f => extract_fields x = ([], Ok f)) l fs /\
    issues r' = (issues r ++ kept)%list /\ kept `sublist_of` fs.
Proof.
  induction l as [|x l IH]; intros curr r t curr' r' H; cbn [for_each] in H.
  - injection H as _ _ <-. exists [], []. rewrite app_nil_r.
    repeat split; constructor.
  - apply bind_Ok_inv in H as (t1 & [c1 r1] & t2 & Hx & H & _).
    apply process_issue_Ok in Hx as (f & ig & Hf & _ & Ht & Hk).
    apply IH in H as (fs & kept & Hfs & Hiss & Hsub). destruct ig.
    + rewrite (Ht eq_refl) in Hiss. exists (f :: fs), kept.
      repeat split; [now constructor | assumption | now apply sublist_cons].
    + destruct (Hk eq_refl) as [_ ->]. cbn in Hiss.
      exists (f :: fs), (f :: kept). repeat split.
      * now constructor.
      * rewrite Hiss, <- app_assoc. now destruct f.
      * now apply sublist_skip.
Qed.

(** X11. The issues of a result are issues of its outcome, in the order of
    the report, each at most once and with the fields read from the
    report: the list of the result is a sublist of the list of the
    outcome. *)
Theorem kept_issues_in_order w ign outcome t curr result :
  scan_outcome w ign outcome = (t, Ok (curr, result)) ->
  exists fs,
    Forall2 (fun x f => extract_fields x = ([], Ok f)) (x_issues outcome) fs /\
    issues result `sublist_of` fs.
Proof.
  intros (p & t0 & r0 & t1 & _ & Hres & Hloop & _)%scan_outcome_Ok.
  apply new_Result_Ok in Hres as (_ & _ & Hnil).
  apply process_issues_kept in Hloop as (fs & kept & Hfs & Hiss & Hsub).
  exists fs. split; [exact Hfs|]. now rewrite Hiss, Hnil.
Qed.

Lemma kept_issues_in_order_witness :
  exists fs,
    Forall2 (fun x f => extract_fields x = ([], Ok f))
      [sample_issue "warning" "Odd" "Patient"; sample_issue "error" "Bad thing" "Patient"] fs /\
    [Build_Issue "3" "7" "warning" "Odd" "Patient"] `sublist_of` fs.
Proof.
  exact (kept_issues_in_order
           (sample_world ∅ [])
           {[ Some "a" := Some [("Patient", [sample_rule (Some "Bad") (Some "known")])] ]}
           (outcome_of "a.xml" [sample_issue "warning" "Odd" "Patient";
                                sample_issue "error" "Bad thing" "Patient"])
           [ReadFile "a.xml"] _
           {| file_path := "a.xml"; id := Some "a";
              issues := [Build_Issue "3" "7" "warning" "Odd" "Patient"] |}
           eq_refl).
Defined.

(** ** Required elements *)

(** X12. The severity is read before the rules are looked at: an issue
    without severity element, or whose severity element has no value,
    stops the script with an exception that nothing catches, whatever the
    rules of the resource are, also when a rule matches its text. *)
Theorem severity_required n curr r issue :
  x_text issue <> NoValue -> x_line issue <> NoValue -> x_col issue <> NoValue ->
  (forall v, x_severity issue <> Value v) ->
  process_issue n (curr, r) issue
  = ([], Raised (match x_severity issue with
                 | NoValue => KeyError "value"
                 | _ => AttributeError
                 end)).
Proof.
  destruct issue as [xt xl xc xs xe]. cbn. intros Ht Hl Hc Hs.
  destruct xs as [| |v]; [| |now destruct (Hs v)];
    destruct xt, xl, xc; try contradiction; reflexivity.
Qed.

Lemma severity_required_witness :
  process_issue 1
    ([("Patient", [sample_rule (Some "Bad") (Some "known")])],
     {| file_path := "a.xml"; id := Some "a"; issues := [] |})
    {| x_text := Value "Bad thing"; x_line := Absent; x_col := Absent;
       x_severity := Absent; x_expression := Value "Patient" |}
  = ([], Raised AttributeError).
Proof.
  apply (severity_required 1 _ _
           {| x_text := Value "Bad thing"; x_line := Absent; x_col := Absent;
              x_severity := Absent; x_expression := Value "Patient" |});
    discriminate.
Defined.

(** ** Rules for resources that the report does not check *)

Lemma scan_outcome_agree w rid ign ign' o :
  agree_off rid ign ign' ->
  (forall p t r0, x_file o = Value p -> new_Result w p = (t, Ok r0) -> id r0 <> rid) ->
  scan_outcome w ign o = scan_outcome w ign' o.
Proof.
  intros Ha Hid. unfold scan_outcome.
  destruct (x_file o) as [| |p]; [reflexivity..|]. cbn [attrib_value].
  rewrite !bind_ret_l.
  destruct (new_Result w p) as [t [r0|c|e]] eqn:E; [|reflexivity..].
  cbn [bind]. unfold current_ignored. now rewrite (Ha (id r0) (Hid p t r0 eq_refl E)).
Qed.

Lemma write_back_agree rid ign ign' x curr :
  agree_off rid ign ign' ->
  agree_off rid (write_back ign x curr) (write_back ign' x curr).
Proof.
  intros Ha rid' Hne. unfold write_back, agree_off, store in *.
  destruct (decide (x = rid)) as [->|Hx].
  - destruct (ign !! rid) as [[m|]|], (ign' !! rid) as [[m'|]|];
      rewrite ?lookup_insert_ne by congruence; now apply Ha.
  - rewrite <- (Ha x Hx). destruct (ign !! x) as [[m|]|]; [|now apply Ha..].
    destruct (decide (x = rid')) as [->|Hx'].
    + now rewrite !lookup_insert_eq.
    + rewrite !lookup_insert_ne by assumption. now apply Ha.
Qed.

Lemma process_outcome_agree w rid ign ign' rs o :
  agree_off rid ign ign' ->
  (forall p t r0, x_file o = Value p -> new_Result w p = (t, Ok r0) -> id r0 <> rid) ->
  same_walk rid (process_outcome w (ign, rs) o) (process_outcome w (ign', rs) o).
Proof.
  intros Ha Hid. unfold process_outcome.
  rewrite (scan_outcome_agree w rid ign ign' o Ha Hid).
  destruct (scan_outcome w ign' o) as [t [[curr r]|c|e]]; [|now split..].
  cbn [bind]. destruct (check_processed (id r) curr) as [t' [[]|c|e]];
    cbn [bind ret app]; split; cbn [fst snd]; try reflexivity.
  split; [reflexivity | now apply write_back_agree].
Qed.

Lemma walk_loop_agree w rid outcomes : forall ign ign' rs,
  agree_off rid ign ign' ->
  (forall o p t r0, o ∈ outcomes -> x_file o = Value p ->
                    new_Result w p = (t, Ok r0) -> id r0 <> rid) ->
  same_walk rid (for_each (process_outcome w) outcomes (ign, rs))
    (for_each (process_outcome w) outcomes (ign', rs)).
Proof.
  induction outcomes as [|o outcomes IH]; intros ign ign' rs Ha Hid; cbn [for_each].
  - now repeat split.
  - pose proof (process_outcome_agree w rid ign ign' rs o Ha
                  (fun p t r0 => Hid o p t r0 (list_elem_of_here _ _))) as [Ht Hs].
    destruct (process_outcome w (ign, rs) o) as [t1 [[s1 l1]|c1|e1]],
      (process_outcome w (ign', rs) o) as [t2 [[s2 l2]|c2|e2]];
      cbn [fst snd] in *; try contradiction; subst.
    + destruct Hs as [<- Hs].
      destruct (IH s1 s2 l1 Hs) as [Ht' Hs'].
      { intros o' p t r0 Ho'. apply Hid. now right. }
      cbn [bind].
      destruct (for_each (process_outcome w) outcomes (s1, l1)) as [u1 q1],
        (for_each (process_outcome w) outcomes (s2, l1)) as [u2 q2].
      cbn [fst snd] in *. subst. now split.
    + now split.
    + now split.
Qed.

(** X13. Rules registered for a resource id that no outcome of the report
    leads to are never looked at: nothing is matched against them and the
    sweep does not report them.  Two dicts of known issues that differ
    only under such an id give the same walk: the same events, the same
    end, the same results. *)
Theorem unchecked_rules_unseen w rid ign ign' outcomes :
  agree_off rid ign ign' ->
  (forall o p t r0, o ∈ outcomes -> x_file o = Value p ->
                    new_Result w p = (t, Ok r0) -> id r0 <> rid) ->
  walk w ign outcomes = walk w ign' outcomes.
Proof.
  intros Ha Hid. unfold walk.
  destruct (walk_loop_agree w rid outcomes ign ign' [] Ha Hid) as [Ht Hs].
  destruct (for_each (process_outcome w) outcomes (ign, [])) as [t1 [[s1 l1]|c1|e1]],
    (for_each (process_outcome w) outcomes (ign', [])) as [t2 [[s2 l2]|c2|e2]];
    cbn [fst snd] in *; try contradiction; subst; try reflexivity.
  now destruct Hs as [<- _].
Qed.

(** The rule for "b" is never used, and never reported: the report only
    checks "a". *)
Lemma unchecked_rules_unseen_witness :
  walk (sample_world ∅ []) two_stale_rules
    [outcome_of "a.xml" [sample_issue "error" "Bad thing" "Patient"]]
  = ([ReadFile "a.xml"], Ok [ {| file_path := "a.xml"; id := Some "a"; issues := [] |} ]).
Proof.
  rewrite (unchecked_rules_unseen (sample_world ∅ []) (Some "b") two_stale_rules
             {[ Some "a" := Some [("Patient", [sample_rule (Some "Bad") (Some "known")])] ]}
             [outcome_of "a.xml" [sample_issue "error" "Bad thing" "Patient"]]).
  - reflexivity.
  - intros rid' Hne. unfold two_stale_rules, store.
    destruct (decide (rid' = Some "a")) as [->|Ha]; [reflexivity|].
    rewrite lookup_insert_ne by congruence.
    now rewrite !lookup_singleton_ne by congruence.
  - intros o p t r0 ->%list_elem_of_singleton [= <-] [= _ <-]. discriminate.
Defined.

(** ** Without known issues *)

Lemma no_exit_bind {A B} (m : run A) (f : A -> run B) :
  no_exit m -> (forall t a, m = (t, Ok a) -> no_exit (f a)) -> no_exit (bind m f).
Proof.
  intros Hm Hf c. destruct m as [t [a|c'|e]]; cbn.
  - specialize (Hf t a eq_refl c). now destruct (f a).
  - now destruct (Hm c').
  - discriminate.
Qed.

Lemma no_exit_for_each {S X} (I : S -> Prop) (body : S -> X -> run S) xs :
  (forall s x, I s -> no_exit (body s x) /\
               forall t s', body s x = (t, Ok s') -> I s') ->
  forall s, I s -> no_exit (for_each body xs s).
Proof.
  intros Hbody. induction xs as [|x xs IH]; intros s Hs; cbn [for_each].
  - now intros c.
  - destruct (Hbody s x Hs) as [Hn Hi]. apply no_exit_bind; [exact Hn|].
    intros t s' E. apply IH, (Hi t s' E).
Qed.

Lemma process_issue_no_rules n r issue :
  no_exit (process_issue n ([], r) issue) /\
  forall t s', process_issue n ([], r) issue = (t, Ok s') -> fst s' = [].
Proof.
  destruct (extract_fields_cases issue) as [[f Hf]|[e Hf]].
  - rewrite (process_issue_fields _ _ _ _ _ Hf). unfold check_ignored.
    cbn [dict_get]. split.
    + intros c. destruct (_ && _); rewrite bind_ret_l; cbn [negb];
        [discriminate|].
      unfold addIssue. now destruct (issue_levels !! severity f).
    + intros t [c' r']. destruct (_ && _); rewrite bind_ret_l; cbn [negb].
      * now intros [= _ <- _].
      * unfold addIssue. destruct (issue_levels !! severity f); [|discriminate].
        rewrite bind_ret_l. now intros [= _ <- _].
  - unfold process_issue. rewrite Hf. split; [discriminate | discriminate].
Qed.

Lemma process_outcome_no_rules w ign rs o :
  rules_free ign ->
  no_exit (process_outcome w (ign, rs) o) /\
  forall t s', process_outcome w (ign, rs) o = (t, Ok s') -> rules_free (fst s').
Proof.
  intros Hfree.
  assert (Hscan : no_exit (scan_outcome w ign o) /\
            forall t curr r, scan_outcome w ign o = (t, Ok (curr, r)) -> curr = []).
  { unfold scan_outcome. split.
    - apply no_exit_bind; [destruct (x_file o); discriminate|]. intros _ p _.
      apply no_exit_bind.
      { unfold new_Result. intros c.
        destruct (resource_files w p) as [[| |v]|]; discriminate. }
      intros t r0 _. rewrite Hfree.
      apply (no_exit_for_each (fun st => fst st = [])); [|reflexivity].
      intros [c1 r1] x Hs. cbn in Hs. subst c1. apply process_issue_no_rules.
    - intros t curr r H.
      apply bind_Ok_inv in H as (t1 & p & t2 & _ & H & _).
      apply bind_Ok_inv in H as (t3 & r0 & t4 & _ & H & _).
      rewrite Hfree in H.
      refine (for_each_invariant (fun st => fst st = []) _ _ _
                ([], r0) t4 (curr, r) eq_refl H).
      intros [c1 r1] x t' s' Hs Hx. cbn in Hs. subst c1.
      exact (proj2 (process_issue_no_rules _ r1 x) t' s' Hx). }
  destruct Hscan as [Hn Hc]. unfold process_outcome. split.
  - apply no_exit_bind; [exact Hn|]. intros t [curr r] E.
    rewrite (Hc _ _ _ E). cbn. discriminate.
  - intros t [ign' rs'] H.
    apply process_outcome_Ok in H as (curr & r & Hs & _ & -> & _).
    rewrite (Hc _ _ _ Hs). cbn [fst]. intros rid.
    unfold write_back, current_ignored, store in *.
    pose proof (Hfree (id r)) as Hr. pose proof (Hfree rid) as Hrid.
    unfold current_ignored in Hr, Hrid.
    destruct (ign !! id r) as [[m|]|] eqn:E; try exact Hrid.
    destruct (decide (id r = rid)) as [<-|Hne].
    + now rewrite lookup_insert_eq.
    + now rewrite lookup_insert_ne.
Qed.

Lemma walk_no_rules w ign outcomes : rules_free ign -> no_exit (walk w ign outcomes).
Proof.
  intros Hfree. unfold walk. apply no_exit_bind.
  - apply (no_exit_for_each (fun st => rules_free (fst st))); [|exact Hfree].
    intros [i1 r1] x Hi. now apply process_outcome_no_rules.
  - intros t [s rs] _ c. discriminate.
Qed.

(** X14. Without [--ignored-issues] the walk never calls [sys.exit]: a run
    that ends through [sys.exit] with status 1 has come to the verdict, one
    of the kept issues is at or below the fail level, and the last line
    printed is the line about errors. *)
Theorem exit_only_by_verdict w options args :
  opt_ignored_issues options = None ->
  snd (main w options args) = SysExit 1 ->
  exists t0 fl vl t results,
    parse_options options args = (t0, Ok (fl, vl)) /\
    gather w options args = (t, Ok results) /\
    failing fl results = true /\
    last (stdout (main w options args)) = Some (errors_line (formatter_of options)).
Proof.
  intros Hnone Hmain.
  destruct (parse_options_cases options args)
    as [(fl & vl & Hp & _)|(msg & Hp & _)].
  2:{ rewrite (main_refused _ _ _ _ _ Hp) in Hmain. discriminate. }
  assert (Hg : no_exit (gather w options args)).
  { unfold gather, load_ignored_issues. rewrite Hnone, bind_ret_l.
    apply no_exit_bind.
    - unfold load_outcomes. intros c. destruct args as [|p args]; [discriminate|].
      cbn. destruct (report_files w p) as [[o|os]|]; discriminate.
    - intros t os _. apply walk_no_rules. intros rid. reflexivity. }
  destruct (gather w options args) as [t [results|c|e]] eqn:E.
  - rewrite (main_valid _ _ _ _ _ _ _ _ Hp E) in Hmain |- *. cbn [snd] in Hmain.
    destruct (failing fl results) eqn:F; [|discriminate].
    exists [], fl, vl, t, results. repeat split; try assumption.
    unfold stdout. cbn [fst]. rewrite !printed_app, printed_map_Print.
    unfold verdict_lines. rewrite F. now rewrite !app_assoc, last_snoc.
  - now destruct (Hg c).
  - unfold main in Hmain. rewrite Hp in Hmain. cbn beta iota delta [bind] in Hmain.
    rewrite E in Hmain. discriminate.
Qed.

Lemma exit_only_by_verdict_witness :
  exists t0 fl vl t results,
    parse_options default_options ["report.xml"] = (t0, Ok (fl, vl)) /\
    gather (sample_world ∅ [outcome_of "a.xml" [sample_issue "error" "Bad" "Patient"]])
      default_options ["report.xml"] = (t, Ok results) /\
    failing fl results = true /\
    last (stdout (main (sample_world ∅ [outcome_of "a.xml" [sample_issue "error" "Bad" "Patient"]])
                    default_options ["report.xml"]))
    = Some (errors_line (formatter_of default_options)).
Proof.
  exact (exit_only_by_verdict
           (sample_world ∅ [outcome_of "a.xml" [sample_issue "error" "Bad" "Patient"]])
           default_options ["report.xml"] eq_refl eq_refl).
Defined.

(** ** An id that comes twice in the report *)

Lemma all_processed_sweep rid curr :
  all_processed curr -> check_processed rid curr = ([], Ok tt).
Proof.
  intros Hall. rewrite check_processed_spec.
  destruct (List.find _ curr) as [[e known]|] eqn:F; [|reflexivity]. exfalso.
  apply find_some in F as [Hin F]. cbn in F.
  apply negb_true_iff, not_true_iff_false in F. apply F, forallb_forall.
  intros k Hk. eapply Hall; apply list_elem_of_In; eassumption.
Qed.

(** X15. The marks are kept from one outcome to the next: once an outcome
    of a resource id has passed the sweep, a later outcome with the same
    id passes it whatever its issues are.  The rules of an id have to be
    used by the issues of the first outcome with that id. *)
Theorem second_outcome_not_swept w ign opre t1 ign1 rs1 r o t2 curr result :
  for_each (process_outcome w) opre (ign, []) = (t1, Ok (ign1, rs1)) ->
  r ∈ rs1 ->
  scan_outcome w ign1 o = (t2, Ok (curr, result)) ->
  id result = id r ->
  process_outcome w (ign1, rs1) o
  = (t2, Ok (write_back ign1 (id result) curr, (rs1 ++ [result])%list)).
Proof.
  intros Hpre Hr Hs Hid.
  pose proof (walk_loop_all_processed _ _ _ _ _ _ Hpre r Hr) as Hall.
  rewrite <- Hid in Hall.
  pose proof (marks_map_processed _ _ (scan_outcome_marks _ _ _ _ _ _ Hs) Hall) as Hc.
  unfold process_outcome. rewrite Hs. cbn [bind].
  rewrite (all_processed_sweep _ _ Hc). cbn [bind ret app]. now rewrite app_nil_r.
Qed.

(** The second outcome of "a" has no issue that uses the rule. *)
Lemma second_outcome_not_swept_witness :
  process_outcome (sample_world ∅ [])
    ({[ Some "a" := Some [("Patient", [set_processed (sample_rule (Some "Bad") (Some "known"))])] ]},
     [ {| file_path := "a.xml"; id := Some "a"; issues := [] |} ])
    (outcome_of "a.xml" [])
  = ([ReadFile "a.xml"],
     Ok ({[ Some "a" := Some [("Patient", [set_processed (sample_rule (Some "Bad") (Some "known"))])] ]},
         [ {| file_path := "a.xml"; id := Some "a"; issues := [] |};
           {| file_path := "a.xml"; id := Some "a"; issues := [] |} ])).
Proof.
  exact (second_outcome_not_swept (sample_world ∅ [])
    {[ Some "a" := Some [("Patient", [sample_rule (Some "Bad") (Some "known")])] ]}
    [outcome_of "a.xml" [sample_issue "error" "Bad thing" "Patient"]]
    [ReadFile "a.xml"]
    {[ Some "a" := Some [("Patient", [set_processed (sample_rule (Some "Bad") (Some "known"))])] ]}
    [ {| file_path := "a.xml"; id := Some "a"; issues := [] |} ]
    {| file_path := "a.xml"; id := Some "a"; issues := [] |}
    (outcome_of "a.xml" []) [ReadFile "a.xml"]
    [("Patient", [set_processed (sample_rule (Some "Bad") (Some "known"))])]
    {| file_path := "a.xml"; id := Some "a"; issues := [] |}
    eq_refl (proj2 (list_elem_of_singleton _ _) eq_refl) eq_refl eq_refl).
Defined.

(** ** Messages are prefixes *)

Lemma prefix_append m d : String.prefix m (m +:+ d) = true.
Proof.
  induction m as [|a m IH]; [now destruct d|].
  change (String a m +:+ d) with (String a (m +:+ d)). simpl String.prefix.
  destruct (ascii_dec a a); [exact IH | contradiction].
Qed.

Lemma dict_get_replace {V} x (v v' : V) d :
  dict_get x d = Some v -> dict_get x (dict_replace x v' d) = Some v'.
Proof.
  induction d as [|[k w] d IH]; cbn [dict_get dict_replace]; [discriminate|].
  destruct (x =? k)%string eqn:E; cbn [dict_get]; rewrite E; [reflexivity | exact IH].
Qed.

(** X16. A rule suppresses the issues of its resource and expression whose
    text starts with its message: when the text is the message followed by
    anything, and the matching rules all give a reason, the issue is
    ignored, nothing is printed and the rule is found marked under the
    same expression afterwards.  A rule with the empty message does so for
    every text. *)
Theorem prefix_rule_suppresses rid n curr f known k m d :
  dict_get (expression f) curr = Some known ->
  k ∈ known -> message k = Some m -> text f = m +:+ d ->
  (forall k', k' ∈ known -> matches (text f) k' = true -> is_Some (reason k')) ->
  exists curr' known',
    check_ignored rid n curr f = ([], Ok (true, curr')) /\
    dict_get (expression f) curr' = Some known' /\
    set_processed k ∈ known'.
Proof.
  intros Hd Hk Hm Ht Hr.
  assert (M : matches (text f) k = true).
  { unfold matches. rewrite Hm, Ht. apply prefix_append. }
  exists (dict_replace (expression f) (map (mark (text f)) known) curr),
    (map (mark (text f)) known).
  repeat split.
  - unfold check_ignored. rewrite Hd, match_known_issues_spec.
    destruct (existsb (unjustified (text f)) known) eqn:U.
    + apply existsb_exists in U as (k' & Hk'%list_elem_of_In & U).
      unfold unjustified in U. apply andb_true_iff in U as [M' R].
      destruct (Hr k' Hk' M') as [r Hreason]. rewrite Hreason in R. discriminate.
    + cbn [bind ret app orb].
      assert (E : existsb (matches (text f)) known = true).
      { apply existsb_exists. exists k. now rewrite <- list_elem_of_In. }
      now rewrite E.
  - eapply dict_get_replace, Hd.
  - apply list_elem_of_fmap. exists k. unfold mark. now rewrite M.
Qed.

Lemma prefix_rule_suppresses_witness :
  exists curr' known',
    check_ignored (Some "a") 3 [("Patient", [sample_rule (Some "") (Some "known")])]
      (Build_Issue "3" "7" "error" "Anything" "Patient")
    = ([], Ok (true, curr')) /\
    dict_get "Patient" curr' = Some known' /\
    set_processed (sample_rule (Some "") (Some "known")) ∈ known'.
Proof.
  refine (prefix_rule_suppresses (Some "a") 3
            [("Patient", [sample_rule (Some "") (Some "known")])]
            (Build_Issue "3" "7" "error" "Anything" "Patient")
            [sample_rule (Some "") (Some "known")]
            (sample_rule (Some "") (Some "known")) "" "Anything"
            eq_refl _ eq_refl eq_refl _).
  - apply list_elem_of_singleton. reflexivity.
  - intros k' ->%list_elem_of_singleton _. now eexists.
Defined.
